(** * gsap-lib: the GSAP convenience wrappers of [general-utils.js]

    A shallow embedding of the helper functions of [src/js/general-utils.js]
    (and of the older copy of the same file, which defines a subset of them),
    with the properties of the specification proved about it.

    The helpers are glue: each one calls into the animation engine
    ([timeline.to], [gsap.set]), the page ([document.getElementById],
    [innerHTML], [appendChild]), the network ([fetch]) or the console.  The
    embedding keeps the helpers' own control flow and the arguments they
    build, and represents each collaborator by the state the helper can
    observe or change:

    - a timeline by the segments added to it through [to], in call order;
      where a start time is spoken of, the engine's reading of the position
      parameter is given in [Engine];
    - the page by a tree of nodes, with element references as paths;
    - the network by the settled outcome of [fetch] and of [response.text];
    - the browser's markup parser and selector engine by their answers;
    - [gsap.set] by the call and by the values it leaves on the elements the
      selector matched when it was called;
    - the callback and [console.error] by the trace of calls.

    Numbers that the helpers compute with are doubles ([Num]): the delay of
    [switchLights] is any double, with or without a fraction, an infinity or
    NaN; the offsets of the position encoders are integers, rounded to the
    nearest double as a literal is.  Products are rounded as the processor
    rounds them, and a number is printed as a template literal prints it.
    Numbers that are only passed through are rationals ([1.5] is [3 # 2]). *)

From Stdlib Require Import ZArith QArith List String Ascii Bool Lia.
From Stdlib Require Import DecimalString DecimalZ.
From Stdlib Require Import Permutation.
Import ListNotations.

Local Open Scope string_scope.
Local Open Scope Z_scope.

Set Warnings "-register-all".

(** ** JavaScript values *)

Module Js.

(** The values the helpers build and pass on.  [VLogger args] is an arrow
    function whose body is [console.log(args)]; [VError name message] is an
    exception object. *)
Inductive Value : Type :=
| VUndefined
| VNull
| VBool (b : bool)
| VNum (q : Q)
| VStr (s : string)
| VArr (items : list Value)
| VObj (fields : list (string * Value))
| VLogger (args : list Value)
| VError (name message : string).

Definition int (z : Z) : Value := VNum (inject_Z z).

(** Outcome of running a piece of synchronous code. *)
Inductive Completion (A : Type) : Type :=
| Normal (a : A)
| Throw (e : Value).
Arguments Normal {A} a.
Arguments Throw {A} e.

(** Code that reads and writes a state [St] and may throw. *)
Definition M (St A : Type) : Type := St -> Completion A * St.

Definition ret {St A} (a : A) : M St A := fun s => (Normal a, s).

Definition raise {St A} (e : Value) : M St A := fun s => (Throw e, s).

Definition bind {St A B} (m : M St A) (k : A -> M St B) : M St B :=
  fun s =>
    match m s with
    | (Normal a, s') => k a s'
    | (Throw e, s') => (Throw e, s')
    end.

(** A parameter with a default value: the default is taken when the argument
    is left out or is [undefined]. *)
Definition orDefault (v dflt : Value) : Value :=
  match v with
  | VUndefined => dflt
  | _ => v
  end.

End Js.

Import Js.

Declare Scope js_scope.
Delimit Scope js_scope with js.
Notation "x <- m ;; k" := (bind m (fun x => k))
  (at level 61, m at next level, right associativity) : js_scope.
Notation "m ;;; k" := (bind m (fun _ => k))
  (at level 61, right associativity) : js_scope.
Local Open Scope js_scope.

(** ** Numbers *)

Module Num.

(** All the digits of an integer, with a minus sign when negative. *)
Definition decimal (z : Z) : string :=
  NilZero.string_of_int (Z.to_int z).

(** A double: one whose value is the integer [z]; one with a fraction,
    whose value is [m / 2^e], with [m] odd and below 2^53 in absolute value
    and [e] at most 1074; an infinity; or NaN.  The two zeros are not told
    apart: they print alike and both are [=== 0]. *)
Inductive Number : Type :=
| Finite (z : Z)
| Fraction (m : Z) (e : positive)
| Infinite (negative : bool)
| NaN.

(** The double nearest to an integer, ties to the even mantissa: 53 bits are
    kept, and what would need an exponent beyond the largest one is an
    infinity. *)
Definition roundInteger (z : Z) : Number :=
  let a := Z.abs z in
  if a <? 2 ^ 53 then Finite z
  else
    let shift := Z.log2 a - 52 in
    let q := a / 2 ^ shift in
    let r := a mod 2 ^ shift in
    let half := 2 ^ (shift - 1) in
    let q' := if r <? half then q
              else if half <? r then q + 1
              else if Z.even q then q else q + 1 in
    let v := q' * 2 ^ shift in
    if v <? 2 ^ 1024 then Finite (Z.sgn z * v) else Infinite (z <? 0).

Fixpoint trailingZeros (p : positive) : Z :=
  match p with
  | xO p' => 1 + trailingZeros p'
  | _ => 0
  end.

(** [m / 2^e] in lowest terms, for [0 < e]. *)
Definition dyadic (m e : Z) : Number :=
  match m with
  | Z0 => Finite 0
  | Zpos p | Zneg p =>
      let twos := Z.min e (trailingZeros p) in
      if e - twos =? 0 then Finite (m / 2 ^ twos)
      else Fraction (m / 2 ^ twos) (Z.to_pos (e - twos))
  end.

(** The double nearest to [p / q], for [0 < q], ties to the even mantissa:
    53 bits are kept, fewer where the last bit would be worth less than
    2^-1074, and what would need an exponent beyond the largest one is an
    infinity. *)
Definition roundRational (p q : Z) : Number :=
  let a := Z.abs p in
  if a =? 0 then Finite 0
  else
    let k0 := Z.log2 a - Z.log2 q in
    let k := if (if 0 <=? k0 then q * 2 ^ k0 <=? a else q <=? a * 2 ^ (- k0))
             then k0 else k0 - 1 in
    let u := Z.max (k - 52) (- 1074) in
    let N := if 0 <=? u then a else a * 2 ^ (- u) in
    let D := if 0 <=? u then q * 2 ^ u else q in
    let n0 := N / D in
    let r := N mod D in
    let n := if 2 * r <? D then n0
             else if D <? 2 * r then n0 + 1
             else if Z.even n0 then n0 else n0 + 1 in
    if 0 <=? u then
      if n * 2 ^ u <? 2 ^ 1024 then Finite (Z.sgn p * (n * 2 ^ u))
      else Infinite (p <? 0)
    else dyadic (Z.sgn p * n) (- u).

(** The number an integer literal or argument stands for. *)
Definition ofZ (z : Z) : Number := roundInteger z.

(** An array index: below 2^32, so exact. *)
Definition ofIndex (index : nat) : Number := Finite (Z.of_nat index).

(** [x * y] *)
Definition multiply (x y : Number) : Number :=
  match x, y with
  | NaN, _ => NaN
  | _, NaN => NaN
  | Finite a, Finite b => roundInteger (a * b)
  | Finite a, Fraction m e => roundRational (a * m) (2 ^ Zpos e)
  | Fraction m e, Finite b => roundRational (m * b) (2 ^ Zpos e)
  | Fraction m e, Fraction m' e' => roundRational (m * m') (2 ^ Zpos (e + e'))
  | Finite a, Infinite s => if a =? 0 then NaN else Infinite (xorb s (a <? 0))
  | Infinite s, Finite a => if a =? 0 then NaN else Infinite (xorb s (a <? 0))
  | Fraction m _, Infinite s => if m =? 0 then NaN else Infinite (xorb s (m <? 0))
  | Infinite s, Fraction m _ => if m =? 0 then NaN else Infinite (xorb s (m <? 0))
  | Infinite s, Infinite t => Infinite (xorb s t)
  end.

(** [x === 0] *)
Definition isZero (x : Number) : bool :=
  match x with
  | Finite z => z =? 0
  | Fraction m _ => m =? 0
  | _ => false
  end.

(** [d] is read back as the double [v]. *)
Definition roundsTo (v d : Z) : bool :=
  match roundInteger d with
  | Finite z => z =? v
  | _ => false
  end.

(** The integer with the most trailing zeros, [zeros] at most, that is read
    back as the double [v]; of two, the nearer one, and the even one when
    they are as near. *)
Fixpoint shortest (v : Z) (zeros : nat) : Z :=
  match zeros with
  | O => v
  | S fewer =>
      let p := 10 ^ Z.of_nat zeros in
      let lo := v / p * p in
      let hi := lo + p in
      match roundsTo v lo, roundsTo v hi with
      | true, true =>
          if v - lo <? hi - v then lo
          else if hi - v <? v - lo then hi
          else if Z.even (v / p) then lo else hi
      | true, false => lo
      | false, true => hi
      | false, false => shortest v fewer
      end
  end.

Fixpoint stripZeros (s : string) : string :=
  match s with
  | EmptyString => EmptyString
  | String c rest =>
      let rest' := stripZeros rest in
      if Ascii.eqb c "0" && String.eqb rest' "" then EmptyString
      else String c rest'
  end.

(** A double of 2^53 or more, printed: the fewest digits that are read back
    as the same double, written out in full up to 21 digits and with an
    exponent beyond. *)
Definition renderLarge (v : Z) : string :=
  let digits := decimal (shortest v (String.length (decimal v))) in
  let n := Z.of_nat (String.length digits) in
  if n <=? 21 then digits
  else
    match stripZeros digits with
    | String c rest =>
        String c ((if String.eqb rest "" then "" else "." ++ rest)
                  ++ "e+" ++ decimal (n - 1))
    | EmptyString => digits
    end.

(** The decimal [s * 10^t] is read back as the double [a / q]. *)
Definition readsBack (a q s t : Z) : bool :=
  match (if 0 <=? t then roundRational (s * 10 ^ t) 1
         else roundRational s (10 ^ (- t))) with
  | Finite z => z * q =? a
  | Fraction m e => m * q =? a * 2 ^ Zpos e
  | _ => false
  end.

(** The digits [s] and the exponent [t] of the decimal [s * 10^t] that is
    read back as the double [a / q], with [t] as large as can be, [start] at
    most: the fewest digits.  Of two such decimals the nearer one is taken,
    and the even one when they are as near. *)
Fixpoint fewestDigits (a q : Z) (start : Z) (fuel : nat) : Z * Z :=
  let N := if 0 <=? start then a else a * 10 ^ (- start) in
  let D := if 0 <=? start then q * 10 ^ start else q in
  let lo := N / D in
  let hi := lo + 1 in
  match readsBack a q lo start, readsBack a q hi start with
  | true, true =>
      if 2 * N <? (lo + hi) * D then (lo, start)
      else if (lo + hi) * D <? 2 * N then (hi, start)
      else if Z.even lo then (lo, start) else (hi, start)
  | true, false => (lo, start)
  | false, true => (hi, start)
  | false, false =>
      match fuel with
      | O => (lo, start)
      | S fuel' => fewestDigits a q (start - 1) fuel'
      end
  end.

Definition zeros (n : Z) : string :=
  String.concat "" (repeat "0" (Z.to_nat n)).

(** [Number::toString] for the digits [s] and the exponent [t]: written out
    when the point comes after at most 21 digits or at most 6 zeros follow
    it, and with an exponent otherwise. *)
Definition layout (s t : Z) : string :=
  let digits := stripZeros (decimal s) in
  let k := Z.of_nat (String.length digits) in
  let n := Z.of_nat (String.length (decimal s)) + t in
  if (k <=? n) && (n <=? 21) then digits ++ zeros (n - k)
  else if (0 <? n) && (n <=? 21) then
    substring 0 (Z.to_nat n) digits ++ "."
    ++ substring (Z.to_nat n) (Z.to_nat (k - n)) digits
  else if (- 6 <? n) && (n <=? 0) then "0." ++ zeros (- n) ++ digits
  else
    match digits with
    | String c rest =>
        String c ((if String.eqb rest "" then "" else "." ++ rest)
                  ++ "e" ++ (if 0 <=? n - 1 then "+" else "-")
                  ++ decimal (Z.abs (n - 1)))
    | EmptyString => digits
    end.

(** A double [a / q] with a fraction, printed. *)
Definition renderFraction (a q : Z) : string :=
  let start := Z.of_nat (String.length (decimal (a / q))) in
  let (s, t) := fewestDigits a q start (Z.to_nat (start + Z.log2 q)) in
  layout s t.

(** A number in a template literal. *)
Definition numberToString (x : Number) : string :=
  match x with
  | NaN => "NaN"
  | Infinite false => "Infinity"
  | Infinite true => "-Infinity"
  | Finite z =>
      if z =? 0 then "0"
      else (if z <? 0 then "-" else "")
           ++ (if Z.abs z <? 2 ^ 53 then decimal (Z.abs z)
               else renderLarge (Z.abs z))
  | Fraction m e =>
      if m =? 0 then "0"
      else (if m <? 0 then "-" else "")
           ++ renderFraction (Z.abs m) (2 ^ Zpos e)
  end.

(** The integers that doubles tell apart: up to [Number.MAX_SAFE_INTEGER]. *)
Definition isSafeInteger (z : Z) : Prop := Z.abs z <= 2 ^ 53 - 1.

End Num.

Import Num.
(** ** Reference tables *)

(** [TransformOrigin]: position names to percentage pairs. *)
Definition TransformOrigin : list (string * string) :=
  [ ("topLeft", "0% 0%");
    ("topCenter", "50% 0%");
    ("topRight", "100% 0%");
    ("centerLeft", "0% 50%");
    ("center", "50% 50%");
    ("centerRight", "100% 50%");
    ("bottomLeft", "0% 100%");
    ("bottomCenter", "50% 100%");
    ("bottomRight", "100% 100%") ].

(** [PositionReference]: position names to progress values on both axes. *)
Definition PositionReference : list (string * (Q * Q)) :=
  [ ("centerTop", (1 # 2, 0 # 1));
    ("centerBottom", (1 # 2, 1 # 1));
    ("centerCenter", (1 # 2, 1 # 2));
    ("topLeft", (0 # 1, 0 # 1));
    ("topCenter", (1 # 2, 0 # 1));
    ("topRight", (1 # 1, 0 # 1));
    ("centerLeft", (0 # 1, 1 # 2));
    ("centerRight", (1 # 1, 1 # 2));
    ("bottomLeft", (0 # 1, 1 # 1));
    ("bottomCenter", (1 # 2, 1 # 1));
    ("bottomRight", (1 # 1, 1 # 1)) ]%Q.

(** Property read on a table: the first entry under the name. *)
Fixpoint lookup {A} (name : string) (table : list (string * A)) : option A :=
  match table with
  | [] => None
  | (k, v) :: rest => if String.eqb k name then Some v else lookup name rest
  end.

(** ** Position encoders *)

(** [startWithPrevious(secondsOffset = 0)]; [None] is the call without an
    argument. *)
Definition startWithPrevious (secondsOffset : option Z) : string :=
  let secondsOffset :=
    match secondsOffset with Some z => ofZ z | None => ofZ 0 end in
  if isZero secondsOffset then "<" else "<" ++ numberToString secondsOffset.

(** [startAfterPrevious(secondsOffset = 0)]. *)
Definition startAfterPrevious (secondsOffset : option Z) : string :=
  let secondsOffset :=
    match secondsOffset with Some z => ofZ z | None => ofZ 0 end in
  if isZero secondsOffset then "+=0" else "+=" ++ numberToString secondsOffset.

(** ** Timelines *)

(** One call [timeline.to(target, vars, position)]. *)
Record Segment : Type := mkSegment {
  seg_target : Value;
  seg_vars : Value;
  seg_position : Value
}.

(** A timeline is known by the segments added to it, oldest first. *)
Definition Timeline : Type := list Segment.

(** [timeline.to(target, vars, position)]: the engine appends the segment;
    a call without [position] passes [VUndefined]. *)
Definition to (target vars position : Value) : M Timeline Value :=
  fun tl => (Normal VUndefined, (tl ++ [mkSegment target vars position])%list).

(** [array.forEach((item, index) => body)]. *)
Fixpoint forEachFrom {St A} (body : A -> nat -> M St Value) (items : list A)
    (index : nat) : M St Value :=
  match items with
  | [] => ret VUndefined
  | item :: rest =>
      body item index ;;; forEachFrom body rest (S index)
  end.

Definition forEach {St A} (items : list A) (body : A -> nat -> M St Value)
    : M St Value :=
  forEachFrom body items 0%nat.

(** [spinTheThings(timeline, duration)] *)
Definition spinTheThings (duration : Value) : M Timeline Value :=
  to (VStr ".spinnable")
     (VObj [ ("duration", duration);
             ("rotation", VStr "+=360");
             ("transformOrigin", VStr "50% 50%");
             ("ease", VStr "linear");
             ("repeat", int (-1)) ])
     VUndefined ;;;
  ret VUndefined.

(** [openDoorLeft(timeline, doorId)] *)
Definition openDoorLeft (doorId : Value) : M Timeline Value :=
  to doorId
     (VObj [ ("duration", VNum (3 # 2));
             ("x", VStr "0%");
             ("scaleX", int 0);
             ("transformOrigin", VStr "left center");
             ("ease", VStr "power2.out") ])
     VUndefined ;;;
  ret VUndefined.

(** [switchLights(lights, timeline, delay)] *)
Definition switchLights (lights : list Value) (delay : Number) : M Timeline Value :=
  forEach lights (fun light index =>
    to light
       (VObj [ ("attr", VObj [ ("fill", VStr "green") ]);
               ("duration", VNum (1 # 2));
               ("ease", VStr "none") ])
       (VStr ("+=" ++ numberToString (multiply delay (ofIndex index)))) ;;;
    ret VUndefined) ;;;
  ret VUndefined.

(** [moveAlong(timeline, elementId, pathId, position = null, repeat = 0)] *)
Definition moveAlong (elementId pathId position repeat : Value)
    : M Timeline Value :=
  let position := orDefault position VNull in
  let repeat := orDefault repeat (int 0) in
  to elementId
     (VObj [ ("duration", int 1);
             ("ease", VStr "power1.inOut");
             ("motionPath",
              VObj [ ("path", pathId);
                     ("align", pathId);
                     ("alignOrigin", VArr [VNum (1 # 2); VNum (1 # 2)]) ]);
             ("repeat", repeat) ])
     position ;;;
  ret VUndefined.

(** Truthiness of a value in a condition. *)
Definition truthy (v : Value) : bool :=
  match v with
  | VUndefined | VNull => false
  | VBool b => b
  | VNum q => negb (Qeq_bool q 0)
  | VStr s => negb (String.eqb s "")
  | _ => true
  end.

(** [moveOnPath(timeline, id, path, duration, startWithPrevious = false)] *)
Definition moveOnPath (id path duration startWithPrevious : Value)
    : M Timeline Value :=
  let startWithPrevious := orDefault startWithPrevious (VBool false) in
  let position := if truthy startWithPrevious then "<" else "+=0" in
  to id
     (VObj [ ("motionPath",
              VObj [ ("path", path);
                     ("align", path);
                     ("alignOrigin", VArr [VNum (1 # 2); VNum (1 # 2)]);
                     ("autoRotate", VBool false) ]);
             ("duration", duration);
             ("ease", VStr "power1.inOut") ])
     (VStr position) ;;;
  ret VUndefined.

(** [zoomTo(timeline, id, viewBoxParams)] *)
Definition zoomTo (id viewBoxParams : Value) : M Timeline Value :=
  to id
     (VObj [ ("duration", int 1);
             ("attr", VObj [ ("viewBox", viewBoxParams) ]);
             ("ease", VStr "power3.inOut");
             ("onComplete", VLogger [VStr "Zoom completed"]) ])
     VUndefined ;;;
  ret VUndefined.

(** ** The page *)

Module Dom.

(** A node of the page: an element with its tag, the value of its [id]
    attribute (empty when it has none) and its child nodes in order, or a
    text node. *)
Inductive Node : Type :=
| Element (tag id : string) (children : list Node)
| Text (data : string).

(** The document, given by its root element. *)
Definition Document : Type := Node.

(** A reference to a node: the child indices leading to it from the root
    element. *)
Definition Path : Type := list nat.

Section FirstSome.
Context {A B : Type} (f : A -> option B).

(** First item, from [index] on, on which [f] answers. *)
Fixpoint firstSome (items : list A) (index : nat) : option (nat * B) :=
  match items with
  | [] => None
  | item :: rest =>
      match f item with
      | Some b => Some (index, b)
      | None => firstSome rest (S index)
      end
  end.
End FirstSome.

(** An element has the ID [key] when its [id] attribute is not empty and
    equals [key]. *)
Definition hasID (key id : string) : bool :=
  negb (String.eqb id "") && String.eqb id key.

(** First element with the ID [key], in tree order. *)
Fixpoint find (key : string) (n : Node) : option Path :=
  match n with
  | Text _ => None
  | Element _ id children =>
      if hasID key id then Some []
      else match firstSome (find key) children 0 with
           | Some (i, p) => Some (i :: p)
           | None => None
           end
  end.

(** [document.getElementById(elementId)]; [None] is [null]. *)
Definition getElementById (elementId : string) (doc : Document)
    : option Path :=
  find elementId doc.

Fixpoint nodeAt (p : Path) (n : Node) : option Node :=
  match p with
  | [] => Some n
  | i :: p' =>
      match n with
      | Element _ _ children =>
          match nth_error children i with
          | Some c => nodeAt p' c
          | None => None
          end
      | Text _ => None
      end
  end.

Definition childNodes (n : Node) : list Node :=
  match n with
  | Element _ _ children => children
  | Text _ => []
  end.

Definition withChildren (children : list Node) (n : Node) : Node :=
  match n with
  | Element tag id _ => Element tag id children
  | Text data => Text data
  end.

Fixpoint updateNth {A} (i : nat) (f : A -> A) (l : list A) : list A :=
  match l, i with
  | [], _ => []
  | x :: rest, O => f x :: rest
  | x :: rest, S i' => x :: updateNth i' f rest
  end.

Fixpoint removeNth {A} (i : nat) (l : list A) : list A :=
  match l, i with
  | [], _ => []
  | _ :: rest, O => rest
  | x :: rest, S i' => x :: removeNth i' rest
  end.

(** The node at [p] replaced by its image under [f]. *)
Fixpoint updateAt (p : Path) (f : Node -> Node) (n : Node) : Node :=
  match p with
  | [] => f n
  | i :: p' =>
      match n with
      | Element tag id children =>
          Element tag id (updateNth i (updateAt p' f) children)
      | Text data => Text data
      end
  end.

(** The parent of a node: an element, with the index of the node among its
    children, or the document itself for the root element. *)
Inductive Parent : Type :=
| DocumentNode
| ElementNode (parent : Path) (index : nat).

Fixpoint parentNode (element : Path) : Parent :=
  match element with
  | [] => DocumentNode
  | [i] => ElementNode [] i
  | i :: rest =>
      match parentNode rest with
      | DocumentNode => DocumentNode
      | ElementNode q j => ElementNode (i :: q) j
      end
  end.

(** Child [i] taken out of the list and put at its end. *)
Definition moveLast (i : nat) (children : list Node) : list Node :=
  match nth_error children i with
  | Some c => (removeNth i children ++ [c])%list
  | None => children
  end.

(** The node with its child [i] moved behind its other children. *)
Definition reappend (i : nat) (n : Node) : Node :=
  withChildren (moveLast i (childNodes n)) n.

(** [parent.appendChild(child)] where [parent] is the parent of [child], the
    way the library calls it: under an element the child is removed from its
    place and appended after its siblings, and the call returns the child,
    now the last one; under the document the insertion is refused, since the
    document already has its one element child. *)
Definition appendChild (parent : Parent) : M Document Path :=
  match parent with
  | DocumentNode =>
      raise (VError "HierarchyRequestError"
                    "Only one element on document allowed.")
  | ElementNode q i =>
      fun doc =>
        let doc' := updateAt q (reappend i) doc in
        let last :=
          match nodeAt q doc' with
          | Some n => pred (List.length (childNodes n))
          | None => i
          end in
        (Normal (q ++ [last])%list, doc')
  end.

(** IDs of the elements of a subtree, in tree order. *)
Fixpoint ids (n : Node) : list string :=
  match n with
  | Text _ => []
  | Element _ id children =>
      ((if String.eqb id "" then [] else [id]) ++ flat_map ids children)%list
  end.

(** The last child of the node at [p]. *)
Definition lastChild (p : Path) (doc : Document) : option Node :=
  match nodeAt p doc with
  | Some n => last (map Some (childNodes n)) None
  | None => None
  end.

End Dom.

Import Dom.

(** [bringToFront(elementId)], the same in both copies of the file. *)
Definition bringToFront (elementId : string) : M Document Value :=
  fun doc =>
    match getElementById elementId doc with
    | None =>
        (Throw (VError "TypeError"
                  "Cannot read properties of null (reading 'parentNode')"),
         doc)
    | Some element =>
        (appendChild (parentNode element) ;;; ret VUndefined) doc
    end.

(** ** Selecting elements *)

Module Select.

Fixpoint pathEqb (p q : Path) : bool :=
  match p, q with
  | [], [] => true
  | i :: p', j :: q' => Nat.eqb i j && pathEqb p' q'
  | _, _ => false
  end.

(** [p] refers to a node below the node [c] refers to. *)
Fixpoint isUnder (c p : Path) : bool :=
  match c, p with
  | [], _ :: _ => true
  | i :: c', j :: p' => Nat.eqb i j && isUnder c' p'
  | _, _ => false
  end.

Section Kids.
Context (select : Node -> list Path).

(** What [select] finds in each child, as references from the parent. *)
Fixpoint selectKids (children : list Node) (index : nat) : list Path :=
  match children with
  | [] => []
  | c :: rest =>
      (map (cons index) (select c) ++ selectKids rest (S index))%list
  end.
End Kids.

(** The [svg] elements that have an ancestor with the ID [key], in tree
    order; [inside] tells whether an ancestor of [n] has it already. *)
Fixpoint svgBelow (key : string) (inside : bool) (n : Node) : list Path :=
  match n with
  | Text _ => []
  | Element tag id children =>
      ((if inside && String.eqb tag "svg" then [[]] else []) ++
       selectKids (svgBelow key (inside || hasID key id)) children 0)%list
  end.

(** What the selector [#key svg] stands for when [key] is written as the
    selector grammar wants an identifier written. *)
Definition svgUnder (key : string) (doc : Document) : list Path :=
  svgBelow key false doc.

End Select.

Import Select.

(** ** Loading an SVG *)

Module Loader.

(** A promise, at the point where it has settled. *)
Inductive Promise (A : Type) : Type :=
| Fulfilled (a : A)
| Rejected (reason : Value).
Arguments Fulfilled {A} a.
Arguments Rejected {A} reason.

(** What [fetch] hands over: the HTTP status and the outcome of reading the
    body with [response.text()]. *)
Record Response : Type := mkResponse {
  status : Z;
  text : Promise string
}.

(** What the browser contributes: the outcome of a request for each URL;
    the parsing of markup into nodes done by the [innerHTML] setter, and the
    error the setter throws instead when it refuses the markup (a page that
    is an XML document refuses markup that is not well-formed); and the
    answer of [querySelectorAll] to a selector on a page, which is a list of
    elements or an error thrown for a selector it cannot read. *)
Record Environment : Type := mkEnvironment {
  fetch : string -> Promise Response;
  parseFragment : string -> list Node;
  markupError : string -> option Value;
  querySelectorAll : string -> Document -> Completion (list Path)
}.

(** The continuation passed by the caller, by what a call of it does. *)
Inductive Callback : Type :=
| Returning (v : Value)
| Throwing (e : Value).

(** Calls that leave the library, in the order they are made. *)
Inductive Event : Type :=
| FetchRequested (url : string)
| GsapSet (targets vars : Value)
| CallbackCalled (args : list Value)
| ConsoleError (args : list Value).

(** The page, the calls made so far, and the values [gsap.set] has left on
    elements, the latest first. *)
Record World : Type := Build_World {
  page : Document;
  trace : list Event;
  placed : list (Path * Value)
}.

(** A world in which nothing has been set on any element. *)
Definition mkWorld (page : Document) (trace : list Event) : World :=
  Build_World page trace [].

(** What [gsap.set] last left on the element [p]. *)
Fixpoint lookupPlaced (p : Path) (entries : list (Path * Value))
    : option Value :=
  match entries with
  | [] => None
  | (q, vars) :: rest => if pathEqb q p then Some vars else lookupPlaced p rest
  end.

Definition placedAt (p : Path) (w : World) : option Value :=
  lookupPlaced p (placed w).

(** A promise expression: the work done until it settles, and its outcome. *)
Definition Async (A : Type) : Type := World -> Promise A * World.

Definition emit (e : Event) : M World Value :=
  fun w =>
    (Normal VUndefined, Build_World (page w) (trace w ++ [e])%list (placed w)).

(** [promise.then(onFulfilled)]: the handler runs on fulfilment; what it
    returns settles the new promise (a returned promise is followed), what
    it throws rejects it; a rejection is passed on. *)
Definition then_ {A B} (p : Async A) (onFulfilled : A -> M World (Promise B))
    : Async B :=
  fun w =>
    match p w with
    | (Fulfilled a, w') =>
        match onFulfilled a w' with
        | (Normal r, w'') => (r, w'')
        | (Throw e, w'') => (Rejected e, w'')
        end
    | (Rejected e, w') => (Rejected e, w')
    end.

(** [promise.catch(onRejected)] *)
Definition catch_ {A} (p : Async A) (onRejected : Value -> M World (Promise A))
    : Async A :=
  fun w =>
    match p w with
    | (Fulfilled a, w') => (Fulfilled a, w')
    | (Rejected e, w') =>
        match onRejected e w' with
        | (Normal r, w'') => (r, w'')
        | (Throw e', w'') => (Rejected e', w'')
        end
    end.

(** [fetch(url)], with the request and its outcome in one step. *)
Definition fetch_ (env : Environment) (url : string) : Async Response :=
  fun w =>
    (fetch env url,
     Build_World (page w) (trace w ++ [FetchRequested url])%list (placed w)).

(** [document.getElementById(target).innerHTML = markup]: the element is
    looked up, then the setter parses the markup and, unless it refuses it,
    puts the nodes in the place of the children; the old children are gone,
    and with them what had been set on them. *)
Definition setInnerHTML (env : Environment) (target markup : string)
    : M World Value :=
  fun w =>
    match getElementById target (page w) with
    | None =>
        (Throw (VError "TypeError"
                  "Cannot set properties of null (setting 'innerHTML')"), w)
    | Some element =>
        match markupError env markup with
        | Some e => (Throw e, w)
        | None =>
            (Normal VUndefined,
             Build_World
               (updateAt element (withChildren (parseFragment env markup))
                  (page w))
               (trace w)
               (filter (fun entry => negb (isUnder element (fst entry)))
                  (placed w)))
        end
    end.

(** [gsap.set(targets, vars)] with a selector for [targets]: the selector is
    answered on the page as it is at the call, and [vars] is left on each
    element of the answer; an error of the selector engine is thrown on. *)
Definition gsap_set (env : Environment) (targets vars : Value)
    : M World Value :=
  emit (GsapSet targets vars) ;;;
  fun w =>
    match targets with
    | VStr selector =>
        match querySelectorAll env selector (page w) with
        | Normal elements =>
            (Normal VUndefined,
             Build_World (page w) (trace w)
               (map (fun p => (p, vars)) elements ++ placed w)%list)
        | Throw e => (Throw e, w)
        end
    | _ => (Normal VUndefined, w)
    end.

(** [callback()] *)
Definition call (callback : Callback) (args : list Value) : M World Value :=
  emit (CallbackCalled args) ;;;
  match callback with
  | Returning v => ret v
  | Throwing e => raise e
  end.

(** [console.error(args)] *)
Definition console_error (args : list Value) : M World Value :=
  emit (ConsoleError args).

(** The second [then] handler of [loadSVG]: [(svg) => { ... }]. *)
Definition insertAndPlace (env : Environment) (target : string) (x y : Value)
    (callback : option Callback) (svg : string) : M World (Promise Value) :=
  setInnerHTML env target svg ;;;
  gsap_set env (VStr ("#" ++ target ++ " svg"))
           (VObj [ ("x", x); ("y", y) ]) ;;;
  match callback with
  | Some f => call f []
  | None => ret VUndefined
  end ;;;
  ret (Fulfilled VUndefined).

(** The chain [loadSVG] hangs on the promise [p] of its fetch. *)
Definition reactions (env : Environment) (target : string) (x y : Value)
    (callback : option Callback) (p : Async Response) : Async Value :=
  catch_
    (then_
       (then_ p (fun response => ret (text response)))
       (insertAndPlace env target x y callback))
    (fun error =>
       console_error [VStr "Error loading SVG:"; error] ;;;
       ret (Fulfilled VUndefined)).

(** The promise built by [loadSVG(url, target, x, y, callback)]. *)
Definition loadSVG_promise (env : Environment) (url target : string)
    (x y : Value) (callback : option Callback) : Async Value :=
  reactions env target x y callback (fetch_ env url).

(** [loadSVG(url, target, x, y, callback)], for a call whose fetch settles
    before anything else happens: the call itself returns at once; the state
    returned is the one reached when the promise has settled. *)
Definition loadSVG (env : Environment) (url target : string) (x y : Value)
    (callback : option Callback) : M World Value :=
  fun w =>
    (Normal VUndefined, snd (loadSVG_promise env url target x y callback w)).

(** The same call in two steps, for calls that overlap.  [request] is what
    the call does before it returns: the request leaves.  [settle] is what
    happens later, when the response to that request is there: the chain
    runs. *)
Definition request (url : string) : M World Value :=
  emit (FetchRequested url).

Definition settle (env : Environment) (url target : string) (x y : Value)
    (callback : option Callback) : Async Value :=
  reactions env target x y callback (fun w => (fetch env url, w)).

(** The older copy of the file: [loadSVG(url, target, x, y)], which neither
    takes nor calls a callback. *)
Definition loadSVG_promise_4 (env : Environment) (url target : string)
    (x y : Value) : Async Value :=
  catch_
    (then_
       (then_ (fetch_ env url) (fun response => ret (text response)))
       (fun svg =>
          setInnerHTML env target svg ;;;
          gsap_set env (VStr ("#" ++ target ++ " svg"))
                   (VObj [ ("x", x); ("y", y) ]) ;;;
          ret (Fulfilled VUndefined)))
    (fun error =>
       console_error [VStr "Error loading SVG:"; error] ;;;
       ret (Fulfilled VUndefined)).

(** Calls of the callback, and errors logged, in a trace. *)
Definition isCallbackCalled (e : Event) : bool :=
  match e with CallbackCalled _ => true | _ => false end.

Definition isConsoleError (e : Event) : bool :=
  match e with ConsoleError _ => true | _ => false end.

Definition callbackCalls (t : list Event) : list Event :=
  filter isCallbackCalled t.

Definition errorsLogged (t : list Event) : list Event :=
  filter isConsoleError t.

(** The fetch fails: the request is rejected, or the body cannot be read. *)
Definition fetchFails (env : Environment) (url : string) : Prop :=
  match fetch env url with
  | Rejected _ => True
  | Fulfilled response =>
      match text response with
      | Rejected _ => True
      | Fulfilled _ => False
      end
  end.

(** The fetch succeeds with the markup [svg], whatever the status. *)
Definition fetchGives (env : Environment) (url svg : string) : Prop :=
  exists response,
    fetch env url = Fulfilled response /\ text response = Fulfilled svg.

End Loader.

Import Loader.

(** Property read [object.name]. *)
Definition getProp (name : string) (object : Value) : option Value :=
  match object with
  | VObj fields => lookup name fields
  | _ => None
  end.

(** A helper that adds one segment after those present and returns nothing. *)
Definition appendsOne (helper : M Timeline Value) : Prop :=
  forall tl : Timeline,
    exists seg, helper tl = (Normal VUndefined, (tl ++ [seg])%list).

(** ** The engine's reading of positions *)

Module Engine.

(** The animation engine is not part of the repository.  What follows is its
    reading of a position parameter, as far as the lights need it: no
    position, or [null], is the end of the timeline; ["+=N"], with [N]
    written in digits, is [N] seconds after the end of the timeline as it
    stands when the segment is added.  Other positions are left unread. *)
Definition offsetFromEnd (position : Value) : option Q :=
  match position with
  | VUndefined => Some 0%Q
  | VNull => Some 0%Q
  | VStr (String "+"%char (String "="%char digits)) =>
      match NilZero.uint_of_string digits with
      | Some u => Some (inject_Z (Z.of_uint u))
      | None => None
      end
  | _ => None
  end.

(** How long a segment lasts: its [duration], half a second when it has
    none; segments that repeat are left unread. *)
Definition durationOf (vars : Value) : option Q :=
  match getProp "repeat" vars with
  | Some (VNum r) => if Qeq_bool r 0 then
                       match getProp "duration" vars with
                       | Some (VNum d) => if Qle_bool 0 d then Some d else None
                       | None => Some (1 # 2)%Q
                       | _ => None
                       end
                     else None
  | Some _ => None
  | None =>
      match getProp "duration" vars with
      | Some (VNum d) => if Qle_bool 0 d then Some d else None
      | None => Some (1 # 2)%Q
      | _ => None
      end
  end.

(** A segment added to a timeline that ends at [ending]: where it starts,
    and where the timeline ends with it. *)
Definition add (ending : Q) (seg : Segment) : option (Q * Q) :=
  match offsetFromEnd (seg_position seg), durationOf (seg_vars seg) with
  | Some offset, Some duration =>
      let start := (ending + offset)%Q in
      Some (start,
            if Qle_bool ending (start + duration) then (start + duration)%Q
            else ending)
  | _, _ => None
  end.

(** The start of each segment of a timeline, and the end of the timeline. *)
Fixpoint playFrom (ending : Q) (tl : Timeline) : option (list Q * Q) :=
  match tl with
  | [] => Some ([], ending)
  | seg :: rest =>
      match add ending seg with
      | Some (start, ending') =>
          match playFrom ending' rest with
          | Some (starts, final) => Some (start :: starts, final)
          | None => None
          end
      | None => None
      end
  end.

Definition play (tl : Timeline) : option (list Q * Q) := playFrom 0 tl.

End Engine.

(** ** Pages and environments used as examples *)

(** A drawing whose two shapes carry the same [id]. *)
Definition twinsPage : Document :=
  Element "svg" "stage" [ Element "circle" "dot" []; Element "rect" "dot" [] ].

(** A drawing with distinct ids: a road with a cart on it, and the sky. *)
Definition roadPage : Document :=
  Element "svg" "stage"
    [ Element "g" "road" [ Element "rect" "cart" []; Element "path" "path1" [] ];
      Element "g" "sky" [ Text "clouds" ] ].

(** The same drawing with two clouds in the sky that share an [id]. *)
Definition cloudyPage : Document :=
  Element "svg" "stage"
    [ Element "g" "road" [ Element "rect" "cart" []; Element "path" "path1" [] ];
      Element "g" "sky"
        [ Element "circle" "cloud" []; Element "circle" "cloud" [] ] ].

(** A page with a container that still shows a placeholder. *)
Definition hostPage : Document :=
  Element "html" ""
    [ Element "body" ""
        [ Element "div" "scene" [ Text "loading" ]; Element "div" "other" [] ] ].

(** A page whose container has a dot in its [id]. *)
Definition dottedPage : Document :=
  Element "html" ""
    [ Element "body" "" [ Element "div" "stage.main" [ Text "loading" ] ] ].

(** Markup as this example parser reads it: the empty drawing is an [svg]
    element, anything else is kept as text. *)
Definition sampleParser (markup : string) : list Node :=
  if String.eqb markup "<svg></svg>" then [ Element "svg" "" [] ]
  else [ Text markup ].

(** A browser showing an HTML page, for which [/cart.svg] is served,
    [/gone.svg] is answered with status 404 and an error page, and any other
    request fails; no markup is refused; [#scene svg] is answered as the
    selector grammar has it, and the other selectors asked here match
    nothing. *)
Definition sampleEnvironment : Environment :=
  mkEnvironment
    (fun url =>
       if String.eqb url "/cart.svg"
       then Fulfilled (mkResponse 200 (Fulfilled "<svg></svg>"))
       else if String.eqb url "/gone.svg"
       then Fulfilled (mkResponse 404 (Fulfilled "<h1>Not Found</h1>"))
       else Rejected (VError "TypeError" "Failed to fetch"))
    sampleParser
    (fun _ => None)
    (fun selector doc =>
       if String.eqb selector "#scene svg" then Normal (svgUnder "scene" doc)
       else Normal []).

(** A browser showing an XML page, which refuses the unclosed [<svg>] that
    [/broken.svg] delivers. *)
Definition xmlEnvironment : Environment :=
  mkEnvironment
    (fun url =>
       if String.eqb url "/broken.svg"
       then Fulfilled (mkResponse 200 (Fulfilled "<svg>"))
       else Rejected (VError "TypeError" "Failed to fetch"))
    sampleParser
    (fun markup =>
       if String.eqb markup "<svg>"
       then Some (VError "SyntaxError" "The provided markup is invalid XML")
       else None)
    (fun selector doc =>
       if String.eqb selector "#scene svg" then Normal (svgUnder "scene" doc)
       else Normal []).

(** A browser showing [dottedPage]: [#stage.main svg] asks for an element
    with the ID [stage] and the class [main], and the page has none. *)
Definition dottedEnvironment : Environment :=
  mkEnvironment
    (fun _ => Fulfilled (mkResponse 200 (Fulfilled "<svg></svg>")))
    sampleParser
    (fun _ => None)
    (fun _ _ => Normal []).

(** ** Reading the two tables together *)

(** A progress value written the way [TransformOrigin] writes it: [1 # 2] is
    ["50%"]. *)
Definition asPercent (q : Q) : string :=
  decimal (Qnum q * 100 / Zpos (Qden q)) ++ "%".

(** Two references that part ways: they share [common] and then take the
    different children [i] and [j]. *)
Definition diverge (p q : Path) : Prop :=
  exists (common : Path) (i j : nat) (r1 r2 : Path),
    i <> j /\
    p = (common ++ i :: r1)%list /\
    q = (common ++ j :: r2)%list.

(** * Properties *)

(** ** Rendering of numbers *)

Module PositionFacts.

Lemma to_int_proper (z : Z) :
  Z.to_int z <> Decimal.Pos Decimal.Nil /\
  Z.to_int z <> Decimal.Neg Decimal.Nil.
Proof.
  destruct z as [|p|p]; simpl; split; try discriminate;
    intros [= H]; exact (DecimalPos.Unsigned.to_uint_nonnil p H).
Qed.

Lemma decimal_inj (a b : Z) : decimal a = decimal b -> a = b.
Proof.
  unfold decimal. intros H.
  apply DecimalZ.to_int_inj.
  destruct (to_int_proper a) as [Ha1 Ha2].
  destruct (to_int_proper b) as [Hb1 Hb2].
  pose proof (NilZero.isi _ Ha1 Ha2) as Ea.
  pose proof (NilZero.isi _ Hb1 Hb2) as Eb.
  rewrite H in Ea. rewrite Ea in Eb. now injection Eb.
Qed.

Lemma decimal_zero : decimal 0 = "0".
Proof. reflexivity. Qed.

Lemma decimal_nonempty (z : Z) : decimal z <> "".
Proof.
  unfold decimal. intros H.
  destruct (to_int_proper z) as [H1 H2].
  pose proof (NilZero.isi _ H1 H2) as E.
  rewrite H in E. discriminate E.
Qed.


(** Below 2^53 an integer is its own double. *)
Lemma roundInteger_exact (z : Z) :
  Z.abs z < 2 ^ 53 -> roundInteger z = Finite z.
Proof.
  intros H. unfold roundInteger.
  destruct (Z.ltb_spec (Z.abs z) (2 ^ 53)); [reflexivity | lia].
Qed.

Lemma ofZ_safe (z : Z) : isSafeInteger z -> ofZ z = Finite z.
Proof.
  unfold isSafeInteger, ofZ. intros H. apply roundInteger_exact. lia.
Qed.

(** A product that stays within the safe integers is exact. *)
Lemma multiply_safe (a b : Z) :
  isSafeInteger a -> isSafeInteger (a * b) ->
  multiply (ofZ a) (Finite b) = Finite (a * b).
Proof.
  intros Ha Hab. rewrite (ofZ_safe a Ha). cbn [multiply].
  apply roundInteger_exact. unfold isSafeInteger in Hab. lia.
Qed.








(** A safe integer is printed with all its digits. *)
Lemma numberToString_safe (z : Z) :
  isSafeInteger z -> numberToString (Finite z) = decimal z.
Proof.
  unfold isSafeInteger. intros Hs. cbn [numberToString].
  destruct (Z.eqb_spec z 0) as [-> | Hz0]; [reflexivity |].
  destruct (Z.ltb_spec (Z.abs z) (2 ^ 53)); [| lia].
  destruct z as [|p|p]; [contradiction | reflexivity | reflexivity].
Qed.



End PositionFacts.

(** ** The position encoders *)



(** ** Timeline helpers *)

Module TimelineFacts.

Lemma to_then_return (target vars position : Value) (tl : Timeline) :
  (to target vars position ;;; ret VUndefined) tl
  = (Normal VUndefined, (tl ++ [mkSegment target vars position])%list).
Proof. reflexivity. Qed.

(** The loop of [switchLights], started at index [k]. *)
Lemma forEachFrom_lights (delay : Number) (lights : list Value) :
  forall (k : nat) (tl : Timeline),
  exists added : list Segment,
    forEachFrom
      (fun light index =>
         to light
            (VObj [ ("attr", VObj [ ("fill", VStr "green") ]);
                    ("duration", VNum (1 # 2));
                    ("ease", VStr "none") ])
            (VStr ("+=" ++ numberToString
                              (multiply delay (ofIndex index)))) ;;;
         ret VUndefined)
      lights k tl
    = (Normal VUndefined, (tl ++ added)%list) /\
    List.length added = List.length lights /\
    forall (i : nat) (light : Value),
      nth_error lights i = Some light ->
      nth_error added i
      = Some (mkSegment light
                (VObj [ ("attr", VObj [ ("fill", VStr "green") ]);
                        ("duration", VNum (1 # 2));
                        ("ease", VStr "none") ])
                (VStr ("+=" ++ numberToString
                                  (multiply delay (ofIndex (k + i)))))).
Proof.
  induction lights as [|light rest IH]; intros k tl.
  - exists []. split; [now rewrite app_nil_r |].
    split; [reflexivity |]. intros [|i] l; discriminate.
  - destruct (IH (S k) (tl ++ [mkSegment light
                (VObj [ ("attr", VObj [ ("fill", VStr "green") ]);
                        ("duration", VNum (1 # 2));
                        ("ease", VStr "none") ])
                (VStr ("+=" ++ numberToString
                                  (multiply delay (ofIndex k))))])%list)
      as (added & Hrun & Hlen & Hnth).
    eexists (_ :: added). split; [| split].
    + cbn [forEachFrom]. unfold bind at 1. rewrite to_then_return.
      rewrite Hrun. now rewrite <- app_assoc.
    + cbn [List.length]. now rewrite Hlen.
    + intros [|i] l; cbn [nth_error]; intros E.
      * injection E as ->. now rewrite Nat.add_0_r.
      * rewrite (Hnth i l E).
        now replace (S k + i)%nat with (k + S i)%nat by lia.
Qed.

(** The run of [switchLights], with the segments it adds given by index. *)
Lemma switchLights_run (lights : list Value) (delay : Number) (tl : Timeline) :
  exists added : list Segment,
    switchLights lights delay tl = (Normal VUndefined, (tl ++ added)%list) /\
    List.length added = List.length lights /\
    forall (i : nat) (light : Value),
      nth_error lights i = Some light ->
      nth_error added i
      = Some (mkSegment light
                (VObj [ ("attr", VObj [ ("fill", VStr "green") ]);
                        ("duration", VNum (1 # 2));
                        ("ease", VStr "none") ])
                (VStr ("+=" ++ numberToString
                                  (multiply delay (ofIndex i))))).
Proof.
  destruct (forEachFrom_lights delay lights 0%nat tl)
    as (added & Hrun & Hlen & Hnth).
  exists added. split; [| split; [exact Hlen | exact Hnth]].
  unfold switchLights, forEach. unfold bind at 1. now rewrite Hrun.
Qed.

(** Each segment added is the one of the light at its index. *)
Lemma added_segment (lights : list Value) (delay : Number)
    (added : list Segment) :
  List.length added = List.length lights ->
  (forall (i : nat) (light : Value),
     nth_error lights i = Some light ->
     nth_error added i
     = Some (mkSegment light
               (VObj [ ("attr", VObj [ ("fill", VStr "green") ]);
                       ("duration", VNum (1 # 2));
                       ("ease", VStr "none") ])
               (VStr ("+=" ++ numberToString
                                 (multiply delay (ofIndex i)))))) ->
  forall (i : nat) (seg : Segment),
    nth_error added i = Some seg ->
    exists light,
      nth_error lights i = Some light /\
      seg = mkSegment light
              (VObj [ ("attr", VObj [ ("fill", VStr "green") ]);
                      ("duration", VNum (1 # 2));
                      ("ease", VStr "none") ])
              (VStr ("+=" ++ numberToString
                                (multiply delay (ofIndex i)))).
Proof.
  intros Hlen Hnth i seg Hseg.
  assert (Hi : (i < List.length lights)%nat).
  { rewrite <- Hlen. apply nth_error_Some. congruence. }
  destruct (nth_error lights i) as [l|] eqn:El;
    [| apply nth_error_None in El; lia].
  exists l. split; [reflexivity |].
  rewrite (Hnth i l El) in Hseg. now injection Hseg as <-.
Qed.

(** Within the safe integers the token of a light is its delay in digits. *)
Lemma token_safe (delay : Z) (i : nat) :
  isSafeInteger (delay * Z.of_nat i) ->
  isSafeInteger delay ->
  numberToString (multiply (ofZ delay) (ofIndex i))
  = decimal (delay * Z.of_nat i).
Proof.
  intros Hs Hsd. unfold ofIndex.
  rewrite PositionFacts.multiply_safe by assumption.
  now apply PositionFacts.numberToString_safe.
Qed.

End TimelineFacts.

Module EngineFacts.

Lemma digits_read_back (n : Z) :
  0 <= n ->
  exists u, NilZero.uint_of_string (decimal n) = Some u /\ Z.of_uint u = n.
Proof.
  intros Hn. unfold decimal.
  destruct n as [|p|p]; [now exists (Decimal.D0 Decimal.Nil) | | lia].
  exists (Pos.to_uint p). split.
  - cbn [Z.to_int NilZero.string_of_int].
    apply NilZero.usu. apply DecimalPos.Unsigned.to_uint_nonnil.
  - exact (DecimalZ.of_to (Zpos p)).
Qed.

(** The engine's reading of the segment of a light. *)
Lemma add_light (ending : Q) (light : Value) (n : Z) :
  0 <= n ->
  Engine.add ending
    (mkSegment light
       (VObj [ ("attr", VObj [ ("fill", VStr "green") ]);
               ("duration", VNum (1 # 2));
               ("ease", VStr "none") ])
       (VStr ("+=" ++ decimal n)))
  = Some ((ending + inject_Z n)%Q, (ending + inject_Z n + (1 # 2))%Q).
Proof.
  intros Hn. unfold Engine.add.
  cbn [seg_position seg_vars Engine.offsetFromEnd append].
  destruct (digits_read_back n Hn) as (u & Hu & Hv). rewrite Hu, Hv.
  change (Engine.durationOf _) with (Some (1 # 2)%Q). cbv iota beta.
  assert (H : Qle_bool ending (ending + inject_Z n + (1 # 2)) = true).
  { apply Qle_bool_iff.
    assert (Hq : (0 <= inject_Z n)%Q) by (unfold Qle; simpl; lia).
    rewrite <- (Qplus_0_r ending) at 1. rewrite <- Qplus_assoc.
    apply Qplus_le_compat; [apply Qle_refl |].
    apply Qle_trans with (inject_Z n); [exact Hq |].
    rewrite <- (Qplus_0_r (inject_Z n)) at 1.
    apply Qplus_le_compat; [apply Qle_refl | discriminate]. }
  now rewrite H.
Qed.

End EngineFacts.

(** C1, as the code has it.  [switchLights(lights, timeline, delay)] leaves
    the segments already on the timeline in place and adds one segment per
    selector, in the order of the selectors, whatever number the delay is:
    the segment of the selector at index [i] targets that selector, turns
    its fill green over half a second and carries the position ["+="]
    followed by the double [delay * i] as a template literal prints it.
    For a delay that is an integer [d], not negative, with products within
    the safe integers, that is [d * i] in digits, and the engine starts the
    segment [d * i] seconds after the end of the timeline as it stands when
    the segment is added, and ends the timeline half a second later.  With three selectors and a delay of 1 the positions are ["+=0"],
    ["+=1"], ["+=2"], and on a timeline ending at [ending] the three
    segments start at [ending], [ending + 1.5] and [ending + 4]. *)
Theorem switchLights_one_segment_per_light
    (lights : list Value) (delay : Number) (tl : Timeline) :
  (exists added : list Segment,
     switchLights lights delay tl = (Normal VUndefined, (tl ++ added)%list) /\
     List.length added = List.length lights /\
     map seg_target added = lights /\
     (forall (i : nat) (seg : Segment),
        nth_error added i = Some seg ->
        seg_position seg
        = VStr ("+=" ++ numberToString (multiply delay (ofIndex i))) /\
        getProp "attr" (seg_vars seg) = Some (VObj [ ("fill", VStr "green") ]) /\
        getProp "duration" (seg_vars seg) = Some (VNum (1 # 2))) /\
     (forall d : Z,
        delay = ofZ d ->
        0 <= d ->
        isSafeInteger (d * Z.of_nat (List.length lights)) ->
        forall (i : nat) (seg : Segment) (ending : Q),
          nth_error added i = Some seg ->
          seg_position seg = VStr ("+=" ++ decimal (d * Z.of_nat i)) /\
          Engine.add ending seg
          = Some ((ending + inject_Z (d * Z.of_nat i))%Q,
                  (ending + inject_Z (d * Z.of_nat i) + (1 # 2))%Q))) /\
  (forall (a b c : Value) (ending : Q),
     exists (s0 s1 s2 : Segment) (t0 t1 t2 final : Q),
       switchLights [a; b; c] (ofZ 1) tl
       = (Normal VUndefined, (tl ++ [s0; s1; s2])%list) /\
       map seg_target [s0; s1; s2] = [a; b; c] /\
       map seg_position [s0; s1; s2]
       = [VStr "+=0"; VStr "+=1"; VStr "+=2"] /\
       Engine.playFrom ending [s0; s1; s2] = Some ([t0; t1; t2], final) /\
       (t0 == ending)%Q /\
       (t1 == ending + (3 # 2))%Q /\
       (t2 == ending + 4)%Q).
Proof.
  split.
  - destruct (TimelineFacts.switchLights_run lights delay tl)
      as (added & Hrun & Hlen & Hnth).
    pose proof (TimelineFacts.added_segment lights delay added Hlen Hnth)
      as Hseg.
    exists added. split; [exact Hrun |]. split; [exact Hlen |].
    split; [| split].
    + apply nth_error_ext. intros i. rewrite nth_error_map.
      destruct (nth_error lights i) as [l|] eqn:El.
      * now rewrite (Hnth i l El).
      * apply nth_error_None in El. rewrite <- Hlen in El.
        apply nth_error_None in El. now rewrite El.
    + intros i seg Hi.
      destruct (Hseg i seg Hi) as (light & _ & ->).
      repeat split; reflexivity.
    + intros d -> Hdelay Hsafe i seg ending Hi.
      destruct (Hseg i seg Hi) as (light & Hlight & ->).
      assert (Hlt : (i < List.length lights)%nat)
        by (apply nth_error_Some; congruence).
      unfold isSafeInteger in Hsafe.
      assert (Hsi : isSafeInteger (d * Z.of_nat i))
        by (unfold isSafeInteger; nia).
      assert (Hsd : isSafeInteger d) by (unfold isSafeInteger; nia).
      cbn [seg_position].
      rewrite (TimelineFacts.token_safe d i Hsi Hsd).
      split; [reflexivity |].
      apply EngineFacts.add_light. nia.
  - intros a b c ending.
    exists (mkSegment a
              (VObj [ ("attr", VObj [ ("fill", VStr "green") ]);
                      ("duration", VNum (1 # 2));
                      ("ease", VStr "none") ])
              (VStr ("+=" ++ decimal 0))),
           (mkSegment b
              (VObj [ ("attr", VObj [ ("fill", VStr "green") ]);
                      ("duration", VNum (1 # 2));
                      ("ease", VStr "none") ])
              (VStr ("+=" ++ decimal 1))),
           (mkSegment c
              (VObj [ ("attr", VObj [ ("fill", VStr "green") ]);
                      ("duration", VNum (1 # 2));
                      ("ease", VStr "none") ])
              (VStr ("+=" ++ decimal 2))).
    do 4 eexists. split; [| split; [| split; [| split]]].
    + unfold switchLights, forEach. cbn [forEachFrom].
      unfold bind, to, ret. rewrite <- !app_assoc. cbn [app]. reflexivity.
    + reflexivity.
    + reflexivity.
    + cbn [Engine.playFrom].
      rewrite !EngineFacts.add_light by lia. reflexivity.
    + cbn [inject_Z]. repeat split; ring.
Qed.

(** The start times of C1 as the specification words it, refuted: three
    lights switched with a delay of 1 on an empty timeline start at 0, 1.5
    and 4 seconds, not at 0, 1 and 2. *)
Lemma switchLights_starts_are_not_0_1_2 :
  exists (s0 s1 s2 : Segment) (t0 t1 t2 final : Q),
    switchLights [VStr "#red"; VStr "#amber"; VStr "#green"] (ofZ 1) []
    = (Normal VUndefined, [s0; s1; s2]) /\
    map seg_position [s0; s1; s2] = [VStr "+=0"; VStr "+=1"; VStr "+=2"] /\
    Engine.play [s0; s1; s2] = Some ([t0; t1; t2], final) /\
    (t0 == 0)%Q /\ (t1 == 3 # 2)%Q /\ (t2 == 4)%Q /\
    ~ (t1 == 1)%Q /\ ~ (t2 == 2)%Q.
Proof.
  do 7 eexists.
  split; [reflexivity |]. split; [reflexivity |].
  split; [vm_compute; reflexivity |].
  repeat split; try (intros H; discriminate H).
Qed.


(** C6.  Whatever the timeline holds and whatever the arguments,
    [openDoorLeft], [spinTheThings], [moveAlong] and [zoomTo] each return
    [undefined] and leave a timeline made of the segments that were there, in
    the same order and unchanged, followed by one new segment. *)
Theorem helpers_append_exactly_one_segment :
  (forall doorId, appendsOne (openDoorLeft doorId)) /\
  (forall duration, appendsOne (spinTheThings duration)) /\
  (forall elementId pathId position repeat,
     appendsOne (moveAlong elementId pathId position repeat)) /\
  (forall id viewBoxParams, appendsOne (zoomTo id viewBoxParams)).
Proof.
  repeat split; intros; intros tl; eexists;
    apply TimelineFacts.to_then_return.
Qed.

(** C7.  On an empty timeline, [openDoorLeft(tl, "#door1")] followed by
    [moveAlong(tl, "#cart", "#path1", startWithPrevious())] leaves two
    segments: the door segment, then the segment of the cart, whose position
    is ["<"], the token of [startWithPrevious] for a start together with the
    previous segment. *)
Theorem door_then_cart_scenario :
  exists door cart : Segment,
    (openDoorLeft (VStr "#door1") ;;;
     moveAlong (VStr "#cart") (VStr "#path1")
               (VStr (startWithPrevious None)) VUndefined) []
    = (Normal VUndefined, [door; cart]) /\
    seg_target door = VStr "#door1" /\
    seg_target cart = VStr "#cart" /\
    getProp "motionPath" (seg_vars cart)
    = Some (VObj [ ("path", VStr "#path1");
                   ("align", VStr "#path1");
                   ("alignOrigin", VArr [VNum (1 # 2); VNum (1 # 2)]) ]) /\
    seg_position cart = VStr "<" /\
    seg_position cart = VStr (startWithPrevious (Some 0)).
Proof.
  do 2 eexists. split; [reflexivity |].
  repeat split; reflexivity.
Qed.

(** C8.  [spinTheThings(timeline, duration)] adds one segment whose target is
    the selector [".spinnable"], with a rotation of ["+=360"] (one full turn
    from the current angle), [repeat] -1 (repeated without end), the ease
    ["linear"], the transform origin ["50% 50%"], which is the entry
    [center] of [TransformOrigin], and the duration passed in. *)
Theorem spinTheThings_segment (duration : Value) (tl : Timeline) :
  exists seg : Segment,
    spinTheThings duration tl = (Normal VUndefined, (tl ++ [seg])%list) /\
    seg_target seg = VStr ".spinnable" /\
    getProp "rotation" (seg_vars seg) = Some (VStr "+=360") /\
    getProp "repeat" (seg_vars seg) = Some (int (-1)) /\
    getProp "ease" (seg_vars seg) = Some (VStr "linear") /\
    getProp "transformOrigin" (seg_vars seg) = Some (VStr "50% 50%") /\
    lookup "center" TransformOrigin = Some "50% 50%" /\
    getProp "duration" (seg_vars seg) = Some duration /\
    seg_position seg = VUndefined.
Proof.
  eexists. split; [apply TimelineFacts.to_then_return |].
  repeat split; reflexivity.
Qed.
(** ** The page *)

Module DomFacts.

Section FirstSomeFacts.
Context {A B : Type} (f : A -> option B).

Lemma firstSome_found (pre post : list A) (c : A) (b : B) (k : nat) :
  Forall (fun x => f x = None) pre ->
  f c = Some b ->
  firstSome f (pre ++ c :: post)%list k = Some ((k + List.length pre)%nat, b).
Proof.
  intros Hpre Hc. revert k.
  induction Hpre as [|x pre Hx _ IH]; intros k; simpl.
  - now rewrite Hc, Nat.add_0_r.
  - rewrite Hx, IH.
    now replace (S k + List.length pre)%nat
      with (k + S (List.length pre))%nat by lia.
Qed.

Lemma firstSome_inv (l : list A) :
  forall (k i : nat) (b : B),
    firstSome f l k = Some (i, b) ->
    exists pre c post,
      l = (pre ++ c :: post)%list /\
      Forall (fun x => f x = None) pre /\
      f c = Some b /\
      i = (k + List.length pre)%nat.
Proof.
  induction l as [|x l IH]; intros k i b H; simpl in H; [discriminate |].
  destruct (f x) as [b'|] eqn:Ex.
  - injection H as <- <-. exists [], x, l. simpl.
    repeat split; auto; lia.
  - destruct (IH _ _ _ H) as (pre & c & post & -> & Hpre & Hc & ->).
    exists (x :: pre), c, post. simpl.
    repeat split; auto; lia.
Qed.
End FirstSomeFacts.

Lemma updateNth_middle {A} (g : A -> A) (pre post : list A) (c : A) :
  updateNth (List.length pre) g (pre ++ c :: post)%list
  = (pre ++ g c :: post)%list.
Proof. induction pre as [|x pre IH]; simpl; [reflexivity | now rewrite IH]. Qed.

Lemma removeNth_middle {A} (pre post : list A) (c : A) :
  removeNth (List.length pre) (pre ++ c :: post)%list = (pre ++ post)%list.
Proof. induction pre as [|x pre IH]; simpl; [reflexivity | now rewrite IH]. Qed.

Lemma nth_error_middle {A} (pre post : list A) (c : A) :
  nth_error (pre ++ c :: post)%list (List.length pre) = Some c.
Proof. induction pre as [|x pre IH]; simpl; [reflexivity | exact IH]. Qed.

Lemma moveLast_middle (pre post : list Node) (c : Node) :
  moveLast (List.length pre) (pre ++ c :: post)%list
  = ((pre ++ post) ++ [c])%list.
Proof.
  unfold moveLast. now rewrite nth_error_middle, removeNth_middle.
Qed.

(** Moving the last child to the end changes nothing. *)
Lemma moveLast_last (l : list Node) (c : Node) :
  moveLast (List.length l) (l ++ [c])%list = (l ++ [c])%list.
Proof. rewrite moveLast_middle. now rewrite app_nil_r. Qed.

Lemma parentNode_snoc (q : Path) (i : nat) :
  parentNode (q ++ [i])%list = ElementNode q i.
Proof.
  induction q as [|j q IH]; [reflexivity |].
  change ((j :: q) ++ [i])%list with (j :: (q ++ [i]))%list.
  destruct (q ++ [i])%list as [|a r] eqn:E.
  - now destruct q.
  - cbn [parentNode]. cbn [parentNode] in IH. now rewrite IH.
Qed.

Lemma parentNode_inv (p q : Path) (i : nat) :
  parentNode p = ElementNode q i -> p = (q ++ [i])%list.
Proof.
  destruct p as [|a p'] using rev_ind; [discriminate |].
  rewrite parentNode_snoc. now intros [= -> ->].
Qed.

Lemma nodeAt_snoc (q : Path) (i : nat) :
  forall n : Node,
    nodeAt (q ++ [i])%list n
    = match nodeAt q n with
      | Some m => nth_error (childNodes m) i
      | None => None
      end.
Proof.
  induction q as [|j q IH]; intros n; simpl.
  - destruct n as [t a ks|s]; simpl; [| now destruct i].
    now destruct (nth_error ks i).
  - destruct n as [t a ks|s]; [| reflexivity].
    destruct (nth_error ks j); [apply IH | reflexivity].
Qed.

Lemma nodeAt_updateAt (f : Node -> Node) (q : Path) :
  forall n m : Node,
    nodeAt q n = Some m -> nodeAt q (updateAt q f n) = Some (f m).
Proof.
  induction q as [|j q IH]; intros n m H; simpl in *.
  - now injection H as ->.
  - destruct n as [t a ks|s]; [| discriminate].
    destruct (nth_error ks j) as [c|] eqn:Ec; [| discriminate].
    apply nth_error_split in Ec as (pre & post & -> & <-).
    rewrite updateNth_middle, nth_error_middle. now apply IH.
Qed.

(** What [find] tells about the node it returns. *)
Lemma find_root (key : string) (n : Node) :
  find key n = Some [] ->
  exists t a ks, n = Element t a ks /\ hasID key a = true.
Proof.
  destruct n as [t a ks|s]; simpl; [| discriminate].
  destruct (hasID key a) eqn:E.
  - intros _. now exists t, a, ks.
  - destruct (firstSome (find key) ks 0) as [[i p]|]; discriminate.
Qed.

Lemma find_child (key : string) (n : Node) (j : nat) (p : Path) :
  find key n = Some (j :: p) ->
  exists t a pre c post,
    n = Element t a (pre ++ c :: post)%list /\
    hasID key a = false /\
    j = List.length pre /\
    Forall (fun x => find key x = None) pre /\
    find key c = Some p.
Proof.
  destruct n as [t a ks|s]; simpl; [| discriminate].
  destruct (hasID key a) eqn:E; [discriminate |].
  destruct (firstSome (find key) ks 0) as [[i p']|] eqn:F; [| discriminate].
  intros [= -> ->].
  apply firstSome_inv in F as (pre & c & post & -> & Hpre & Hc & ->).
  now exists t, a, pre, c, post.
Qed.

Lemma find_build (key : string) (t a : string) (pre post : list Node)
    (c : Node) (p : Path) :
  hasID key a = false ->
  Forall (fun x => find key x = None) pre ->
  find key c = Some p ->
  find key (Element t a (pre ++ c :: post)%list)
  = Some (List.length pre :: p).
Proof.
  intros Ha Hpre Hc. simpl. rewrite Ha.
  now rewrite (firstSome_found (find key) pre post c p 0%nat Hpre Hc).
Qed.

Lemma hasID_In (key a : string) :
  hasID key a = true ->
  In key (if String.eqb a "" then [] else [a]).
Proof.
  unfold hasID. destruct (String.eqb a "") eqn:E; simpl; [discriminate |].
  intros H. apply String.eqb_eq in H. now left.
Qed.

Lemma find_In_ids (key : string) (p : Path) :
  forall n : Node, find key n = Some p -> In key (ids n).
Proof.
  induction p as [|j p IH]; intros n H.
  - apply find_root in H as (t & a & ks & -> & Ha). simpl.
    apply in_or_app. left. now apply hasID_In.
  - apply find_child in H as (t & a & pre & c & post & -> & _ & _ & _ & Hc).
    simpl. apply in_or_app. right.
    rewrite flat_map_app. apply in_or_app. right. simpl.
    apply in_or_app. left. now apply IH.
Qed.

(** The node returned by [find] is an element with the ID asked for. *)
Lemma find_nodeAt (key : string) (p : Path) :
  forall n : Node,
    find key n = Some p ->
    exists t a ks, nodeAt p n = Some (Element t a ks) /\ hasID key a = true.
Proof.
  induction p as [|j p IH]; intros n H.
  - apply find_root in H as (t & a & ks & -> & Ha). now exists t, a, ks.
  - apply find_child in H as (t & a & pre & c & post & -> & _ & -> & _ & Hc).
    simpl. rewrite nth_error_middle. now apply IH.
Qed.

(** Replacing the children of the element found keeps it the one found. *)
Lemma find_withChildren (key : string) (new : list Node) (p : Path) :
  forall n : Node,
    find key n = Some p ->
    find key (updateAt p (withChildren new) n) = Some p.
Proof.
  induction p as [|j p IH]; intros n H.
  - apply find_root in H as (t & a & ks & -> & Ha). simpl. now rewrite Ha.
  - apply find_child in H as (t & a & pre & c & post & -> & Ha & -> & Hpre & Hc).
    cbn [updateAt]. rewrite updateNth_middle.
    apply find_build; auto.
Qed.

(** The element found, once moved behind its siblings, is the last child of
    the same parent, and moving the last child again changes nothing; when
    no sibling that came after it holds the ID, it is still the element
    found. *)
Lemma find_after_reappend (key : string) (q : Path) :
  forall (n : Node) (i : nat),
    find key n = Some (q ++ [i])%list ->
    exists t a pre c post,
      nodeAt q n = Some (Element t a (pre ++ c :: post)%list) /\
      i = List.length pre /\
      find key c = Some [] /\
      nodeAt q (updateAt q (reappend i) n)
      = Some (Element t a ((pre ++ post) ++ [c])%list) /\
      updateAt q (reappend (List.length (pre ++ post)%list))
        (updateAt q (reappend i) n)
      = updateAt q (reappend i) n /\
      (Forall (fun x => find key x = None) post ->
       find key (updateAt q (reappend i) n)
       = Some (q ++ [List.length (pre ++ post)%list])%list).
Proof.
  induction q as [|j q IH]; intros n i H.
  - apply find_child in H as (t & a & pre & c & post & -> & Ha & -> & Hpre & Hc).
    exists t, a, pre, c, post.
    assert (Hmove : reappend (List.length pre) (Element t a (pre ++ c :: post)%list)
                    = Element t a ((pre ++ post) ++ [c])%list).
    { unfold reappend. simpl. now rewrite moveLast_middle. }
    cbn [updateAt nodeAt app]. rewrite Hmove.
    repeat split; auto.
    + unfold reappend. simpl. now rewrite moveLast_last.
    + intros Hpost.
      rewrite (find_build key t a (pre ++ post)%list [] c [] Ha); auto.
      apply Forall_app. now split.
  - change ((j :: q) ++ [i])%list with (j :: (q ++ [i]))%list in H.
    apply find_child in H as (t & a & pre & c & post & -> & Ha & -> & Hpre & Hc).
    destruct (IH c i Hc)
      as (t' & a' & pre' & c' & post' & Hat & -> & Hc' & Hat' & Hfix & Hfind).
    exists t', a', pre', c', post'.
    cbn [updateAt nodeAt]. rewrite !updateNth_middle, !nth_error_middle.
    repeat split; auto.
    + now rewrite Hfix.
    + intros Hpost. cbn [updateAt]. apply find_build; auto.
Qed.

End DomFacts.

(** Facts on the IDs of a page and on [bringToFront]. *)
Module FrontFacts.

(** Induction on nodes that reaches the children. *)
Lemma Node_ind_nested (P : Node -> Prop) :
  (forall s, P (Text s)) ->
  (forall t a ks, Forall P ks -> P (Element t a ks)) ->
  forall n, P n.
Proof.
  intros HT HE. fix IH 1. intros [t a ks|s]; [| apply HT].
  apply HE. induction ks as [|k ks IHks]; constructor; [apply IH | exact IHks].
Qed.

Lemma firstSome_none {A B} (f : A -> option B) (l : list A) :
  forall k : nat,
    firstSome f l k = None -> Forall (fun x => f x = None) l.
Proof.
  induction l as [|x l IH]; intros k H; simpl in H; [constructor |].
  destruct (f x) eqn:E; [discriminate |].
  constructor; [exact E | now apply IH with (S k)].
Qed.

(** An element that carries the ID is found. *)
Lemma find_complete (key : string) :
  forall n : Node, In key (ids n) -> find key n <> None.
Proof.
  induction n as [s | t a ks IH] using Node_ind_nested; simpl;
    [contradiction |].
  intros Hin. apply in_app_or in Hin as [Hin | Hin].
  - unfold hasID. destruct (String.eqb a "") eqn:E; [contradiction |].
    destruct Hin as [-> | []]. rewrite String.eqb_refl. simpl. discriminate.
  - destruct (hasID key a); [discriminate |].
    destruct (firstSome (find key) ks 0) as [[i p]|] eqn:F; [discriminate |].
    apply firstSome_none in F.
    apply in_flat_map in Hin as (c & Hc & Hkey).
    rewrite Forall_forall in IH, F.
    exfalso. exact (IH c Hc Hkey (F c Hc)).
Qed.

Lemma ids_not_empty (key : string) :
  forall n : Node, In key (ids n) -> key <> "".
Proof.
  induction n as [s | t a ks IH] using Node_ind_nested; simpl;
    [contradiction |].
  intros Hin. apply in_app_or in Hin as [Hin | Hin].
  - destruct (String.eqb_spec a ""); [contradiction |].
    destruct Hin as [-> | []]. assumption.
  - apply in_flat_map in Hin as (c & Hc & Hkey).
    rewrite Forall_forall in IH. exact (IH c Hc Hkey).
Qed.

Lemma find_none_iff (key : string) (n : Node) :
  find key n = None <-> ~ In key (ids n).
Proof.
  split.
  - intros H Hin. exact (find_complete key n Hin H).
  - intros H. destruct (find key n) as [p|] eqn:E; [| reflexivity].
    exfalso. apply H. now apply DomFacts.find_In_ids with p.
Qed.

Lemma moveLast_Permutation (i : nat) (ks : list Node) :
  Permutation (moveLast i ks) ks.
Proof.
  unfold moveLast. destruct (nth_error ks i) as [c|] eqn:E; [| reflexivity].
  apply nth_error_split in E as (pre & post & -> & <-).
  rewrite DomFacts.removeNth_middle, <- app_assoc.
  apply Permutation_app_head. symmetry. apply Permutation_cons_append.
Qed.

Lemma ids_updateNth (g : Node -> Node) :
  (forall n, Permutation (ids (g n)) (ids n)) ->
  forall (ks : list Node) (j : nat),
    Permutation (flat_map ids (updateNth j g ks)) (flat_map ids ks).
Proof.
  intros Hg. induction ks as [|k ks IH]; intros [|j]; simpl; auto.
  - apply Permutation_app_tail. apply Hg.
  - apply Permutation_app_head. apply IH.
Qed.

(** Moving a child behind its siblings keeps the IDs of the subtree. *)
Lemma ids_reappend (q : Path) (i : nat) :
  forall n : Node, Permutation (ids (updateAt q (reappend i) n)) (ids n).
Proof.
  induction q as [|j q IH]; intros [t a ks|s]; simpl; auto.
  - apply Permutation_app_head.
    apply Permutation_flat_map. apply moveLast_Permutation.
  - apply Permutation_app_head. now apply ids_updateNth.
Qed.

Lemma updateAt_fixed (f : Node -> Node) (q : Path) :
  forall n m : Node,
    nodeAt q n = Some m -> f m = m -> updateAt q f n = n.
Proof.
  induction q as [|j q IH]; intros n m Hat Hf; simpl in *.
  - injection Hat as ->. exact Hf.
  - destruct n as [t a ks|s]; [| reflexivity].
    destruct (nth_error ks j) as [c|] eqn:E; [| discriminate].
    apply nth_error_split in E as (pre & post & -> & <-).
    rewrite DomFacts.updateNth_middle. now rewrite (IH c m Hat Hf).
Qed.

Lemma reappend_last (i : nat) (m : Node) :
  S i = List.length (childNodes m) -> reappend i m = m.
Proof.
  destruct m as [t a ks|s]; simpl; [| discriminate].
  destruct ks as [|c l] using rev_ind; [discriminate |].
  rewrite length_app, Nat.add_1_r. intros [= ->].
  unfold reappend. simpl. now rewrite DomFacts.moveLast_last.
Qed.

(** The page after [bringToFront], by the three courses it can take. *)
Lemma bringToFront_cases (elementId : string) (doc : Document) :
  (getElementById elementId doc = None /\
   bringToFront elementId doc
   = (Throw (VError "TypeError"
               "Cannot read properties of null (reading 'parentNode')"),
      doc)) \/
  (getElementById elementId doc = Some [] /\
   bringToFront elementId doc
   = (Throw (VError "HierarchyRequestError"
               "Only one element on document allowed."),
      doc)) \/
  (exists (parent : Path) (index : nat),
     getElementById elementId doc = Some (parent ++ [index])%list /\
     bringToFront elementId doc
     = (Normal VUndefined, updateAt parent (reappend index) doc)).
Proof.
  unfold bringToFront.
  destruct (getElementById elementId doc) as [p|]; [| now left].
  right. destruct p as [|i p] using rev_ind; [now left |].
  right. exists p, i. split; [reflexivity |].
  now rewrite DomFacts.parentNode_snoc.
Qed.

Lemma count_child (key : string) (c : Node) :
  forall ks : list Node,
    In c ks ->
    (count_occ string_dec (ids c) key
     <= count_occ string_dec (flat_map ids ks) key)%nat.
Proof.
  induction ks as [|k ks IH]; intros Hin; [contradiction |].
  simpl. rewrite count_occ_app. destruct Hin as [-> | Hin]; [lia |].
  specialize (IH Hin). lia.
Qed.

(** An ID occurs in a subtree at most as often as in the page. *)
Lemma count_nodeAt (key : string) (q : Path) :
  forall n m : Node,
    nodeAt q n = Some m ->
    (count_occ string_dec (ids m) key
     <= count_occ string_dec (ids n) key)%nat.
Proof.
  induction q as [|j q IH]; intros n m Hat; simpl in Hat.
  - injection Hat as ->. lia.
  - destruct n as [t a ks|s]; [| discriminate].
    destruct (nth_error ks j) as [c|] eqn:E; [| discriminate].
    specialize (IH c m Hat). apply nth_error_In in E.
    pose proof (count_child key c ks E) as Hc.
    simpl. rewrite count_occ_app. lia.
Qed.

(** When the ID occurs once in the page, no sibling behind the element that
    carries it has it. *)
Lemma unique_behind (key : string) (q : Path) (doc : Document)
    (t a : string) (pre post : list Node) (c : Node) :
  nodeAt q doc = Some (Element t a (pre ++ c :: post)%list) ->
  find key c = Some [] ->
  count_occ string_dec (ids doc) key = 1%nat ->
  Forall (fun sibling => ~ In key (ids sibling)) post.
Proof.
  intros Hat Hc Hone. apply Forall_forall. intros s Hs Hin.
  pose proof (count_nodeAt key q doc _ Hat) as Hle.
  apply DomFacts.find_In_ids in Hc.
  apply (count_occ_In string_dec) in Hc, Hin.
  pose proof (count_child key s post Hs) as Hpost.
  simpl in Hle. rewrite count_occ_app, flat_map_app in Hle.
  rewrite count_occ_app in Hle. simpl in Hle.
  rewrite count_occ_app in Hle. lia.
Qed.

End FrontFacts.

(** C5, as the code has it.  When the element found under the ID has a
    parent element (it is not the root), [bringToFront] returns normally and
    moves that element behind its siblings, which keep their order; the
    element is then the last child of its parent, also in a page where
    other elements share the ID.  When none of the siblings that stood
    behind the element has the ID, on itself or below it, the element is
    still the one found under the ID, and a second call returns normally and
    leaves the page as the first call left it.  That is so whenever the ID
    occurs once in the page. *)
Theorem bringToFront_last_child_idempotent
    (doc : Document) (elementId : string) (element parent : Path) (index : nat)
    (Hfound : getElementById elementId doc = Some element)
    (Hparent : parentNode element = ElementNode parent index) :
  exists (node : Node) (doc' : Document) (tag id : string)
         (before after : list Node),
    nodeAt element doc = Some node /\
    nodeAt parent doc = Some (Element tag id (before ++ node :: after)%list) /\
    index = List.length before /\
    bringToFront elementId doc = (Normal VUndefined, doc') /\
    nodeAt parent doc' = Some (Element tag id ((before ++ after) ++ [node])%list) /\
    lastChild parent doc' = Some node /\
    (Forall (fun sibling => ~ In elementId (ids sibling)) after ->
     getElementById elementId doc'
     = Some (parent ++ [List.length (before ++ after)%list])%list /\
     bringToFront elementId doc' = (Normal VUndefined, doc')) /\
    (count_occ string_dec (ids doc) elementId = 1%nat ->
     Forall (fun sibling => ~ In elementId (ids sibling)) after).
Proof.
  apply DomFacts.parentNode_inv in Hparent. subst element.
  unfold getElementById in Hfound.
  destruct (DomFacts.find_after_reappend elementId parent doc index Hfound)
    as (t & a & pre & c & post & Hat & -> & Hc & Hat' & Hfix & Hfind).
  exists c, (updateAt parent (reappend (List.length pre)) doc), t, a, pre, post.
  split.
  { rewrite DomFacts.nodeAt_snoc, Hat. simpl. apply DomFacts.nth_error_middle. }
  split; [exact Hat |]. split; [reflexivity |].
  split.
  { unfold bringToFront, getElementById. rewrite Hfound.
    now rewrite DomFacts.parentNode_snoc. }
  split; [exact Hat' |].
  split.
  { unfold lastChild. rewrite Hat'. simpl.
    rewrite map_app. simpl. apply last_last. }
  split.
  - intros Hbehind.
    assert (Hnone : Forall (fun x => find elementId x = None) post).
    { apply Forall_forall. intros s Hs. apply FrontFacts.find_none_iff.
      rewrite Forall_forall in Hbehind. now apply Hbehind. }
    specialize (Hfind Hnone).
    split; [exact Hfind |].
    unfold bringToFront, getElementById. rewrite Hfind.
    rewrite DomFacts.parentNode_snoc. unfold bind, appendChild, ret.
    now rewrite Hfix.
  - intros Hone. exact (FrontFacts.unique_behind _ _ _ _ _ _ _ _ Hat Hc Hone).
Qed.

Lemma bringToFront_last_child_idempotent_cart :
  getElementById "cart" cloudyPage = Some [0; 0]%nat /\
  parentNode [0; 0]%nat = ElementNode [0%nat] 0%nat /\
  exists (node : Node) (doc' : Document),
    nodeAt [0; 0]%nat cloudyPage = Some node /\
    bringToFront "cart" cloudyPage = (Normal VUndefined, doc') /\
    lastChild [0%nat] doc' = Some node /\
    bringToFront "cart" doc' = (Normal VUndefined, doc').
Proof.
  split; [reflexivity |]. split; [reflexivity |].
  destruct (bringToFront_last_child_idempotent cloudyPage "cart"
              [0; 0]%nat [0%nat] 0%nat eq_refl eq_refl)
    as (node & doc' & tag & id & before & after
        & Hnode & _ & _ & Hrun & _ & Hlast & _ & Hunique).
  exists node, doc'.
  split; [exact Hnode |]. split; [exact Hrun |]. split; [exact Hlast |].
  injection Hrun as <-. reflexivity.
Defined.

(** The two pages on which C5 fails as the specification words it.  In
    [twinsPage] the circle and the rectangle share the ID ["dot"]: the first
    call moves the circle behind the rectangle, the second call finds the
    rectangle under the ID and moves it, so the order changes again and the
    circle is no longer the last child.  In [roadPage] the ID ["stage"] is
    that of the root element, whose parent is the document: the call throws
    and the page stays as it was. *)
Lemma bringToFront_not_idempotent_in_general :
  (getElementById "dot" twinsPage = Some [0%nat] /\
   bringToFront "dot" twinsPage
   = (Normal VUndefined,
      Element "svg" "stage"
        [ Element "rect" "dot" []; Element "circle" "dot" [] ]) /\
   bringToFront "dot"
     (Element "svg" "stage"
        [ Element "rect" "dot" []; Element "circle" "dot" [] ])
   = (Normal VUndefined, twinsPage) /\
   twinsPage
   <> Element "svg" "stage"
        [ Element "rect" "dot" []; Element "circle" "dot" [] ] /\
   lastChild [] twinsPage <> Some (Element "circle" "dot" [])) /\
  (getElementById "stage" roadPage = Some [] /\
   bringToFront "stage" roadPage
   = (Throw (VError "HierarchyRequestError"
               "Only one element on document allowed."),
      roadPage)).
Proof.
  repeat split; try reflexivity; discriminate.
Qed.

(** C10.  When no element has the ID, [bringToFront] throws the [TypeError]
    of reading [parentNode] on [null], and the page is left as it was. *)
Theorem bringToFront_missing_element_throws
    (doc : Document) (elementId : string)
    (Hmissing : getElementById elementId doc = None) :
  bringToFront elementId doc
  = (Throw (VError "TypeError"
              "Cannot read properties of null (reading 'parentNode')"),
     doc).
Proof.
  unfold bringToFront. now rewrite Hmissing.
Qed.

Lemma bringToFront_missing_element_throws_wheel :
  getElementById "wheel" roadPage = None /\
  bringToFront "wheel" roadPage
  = (Throw (VError "TypeError"
              "Cannot read properties of null (reading 'parentNode')"),
     roadPage).
Proof.
  split; [reflexivity |].
  apply (bringToFront_missing_element_throws roadPage "wheel"). reflexivity.
Defined.

(** ** Loading an SVG *)

Module SelectFacts.

Lemma pathEqb_refl (p : Path) : pathEqb p p = true.
Proof.
  induction p as [|i p IH]; [reflexivity |].
  cbn [pathEqb]. now rewrite Nat.eqb_refl, IH.
Qed.

Lemma pathEqb_eq (p : Path) : forall q, pathEqb p q = true -> p = q.
Proof.
  induction p as [|i p IH]; intros [|j q] H; try discriminate; auto.
  cbn [pathEqb] in H. apply andb_prop in H as [Hi Hp].
  apply Nat.eqb_eq in Hi. apply IH in Hp. congruence.
Qed.

(** What has just been left on the elements of an answer is what is read on
    each of them. *)
Lemma lookupPlaced_hit (vars : Value) (p : Path) (rest : list (Path * Value)) :
  forall elements : list Path,
    In p elements ->
    lookupPlaced p (map (fun q => (q, vars)) elements ++ rest)%list
    = Some vars.
Proof.
  induction elements as [|q l IH]; intros Hin; [contradiction |].
  cbn [map app lookupPlaced].
  destruct (pathEqb q p) eqn:E; [reflexivity |].
  destruct Hin as [-> | Hin]; [now rewrite pathEqb_refl in E | now apply IH].
Qed.

Lemma lookupPlaced_miss (vars : Value) (p : Path) (rest : list (Path * Value)) :
  forall elements : list Path,
    ~ In p elements ->
    lookupPlaced p (map (fun q => (q, vars)) elements ++ rest)%list
    = lookupPlaced p rest.
Proof.
  induction elements as [|q l IH]; intros Hin; [reflexivity |].
  cbn [map app lookupPlaced].
  destruct (pathEqb q p) eqn:E.
  - apply pathEqb_eq in E. subst q. exfalso. apply Hin. now left.
  - apply IH. intros H. apply Hin. now right.
Qed.

(** Replacing the children of [c] forgets what was left below [c] and keeps
    the rest. *)
Lemma lookupPlaced_filter (c p : Path) (entries : list (Path * Value)) :
  lookupPlaced p
    (filter (fun entry => negb (isUnder c (fst entry))) entries)
  = if isUnder c p then None else lookupPlaced p entries.
Proof.
  induction entries as [|[q v] rest IH]; [now destruct (isUnder c p) |].
  cbn [filter fst lookupPlaced].
  destruct (isUnder c q) eqn:Eq; cbn [negb lookupPlaced].
  - rewrite IH. destruct (pathEqb q p) eqn:E; [| reflexivity].
    apply pathEqb_eq in E. subst q. now rewrite Eq.
  - rewrite IH. destruct (pathEqb q p) eqn:E; [| reflexivity].
    apply pathEqb_eq in E. subst q. now rewrite Eq.
Qed.

Lemma selectKids_In (select : Node -> list Path) (p : Path) (c : Node) :
  forall (children : list Node) (i k : nat),
    nth_error children i = Some c ->
    In p (select c) ->
    In ((k + i)%nat :: p) (selectKids select children k).
Proof.
  induction children as [|x rest IH]; intros [|i] k Hnth Hin;
    try discriminate; cbn [selectKids]; apply in_or_app.
  - left. injection Hnth as ->. rewrite Nat.add_0_r. now apply in_map.
  - right. replace (k + S i)%nat with (S k + i)%nat by lia. now apply IH.
Qed.

(** An [svg] element right below an element with the ID is selected. *)
Lemma svgBelow_child (key t a : string) (ks : list Node) (i : nat)
    (id : string) (kids : list Node) (inside : bool) :
  hasID key a = true ->
  nth_error ks i = Some (Element "svg" id kids) ->
  In [i] (svgBelow key inside (Element t a ks)).
Proof.
  intros Ha Hnth. cbn [svgBelow]. apply in_or_app. right.
  rewrite Ha, orb_true_r.
  apply (selectKids_In _ [] _ ks i 0%nat Hnth).
  cbn [svgBelow andb]. rewrite String.eqb_refl. now left.
Qed.

(** What is selected in a subtree is selected in the tree. *)
Lemma svgBelow_lift (key : string) (p : Path) (m : Node) (q : Path) :
  forall (n : Node) (inside : bool),
    nodeAt q n = Some m ->
    (forall b, In p (svgBelow key b m)) ->
    In (q ++ p)%list (svgBelow key inside n).
Proof.
  induction q as [|j q IH]; intros n inside Hat Hm.
  - injection Hat as ->. apply Hm.
  - cbn [nodeAt] in Hat. destruct n as [t a ks|s]; [| discriminate].
    destruct (nth_error ks j) as [c|] eqn:Ec; [| discriminate].
    cbn [svgBelow app]. apply in_or_app. right.
    apply (selectKids_In _ (q ++ p)%list c ks j 0%nat Ec).
    now apply IH.
Qed.

(** The [svg] elements put right into the container found are selected. *)
Lemma svgUnder_inserted (key : string) (doc : Document) (container : Path)
    (t a : string) (ks : list Node) (i : nat) (id : string)
    (kids : list Node) :
  nodeAt container doc = Some (Element t a ks) ->
  hasID key a = true ->
  nth_error ks i = Some (Element "svg" id kids) ->
  In (container ++ [i])%list (svgUnder key doc).
Proof.
  intros Hat Ha Hnth. unfold svgUnder.
  apply svgBelow_lift with (Element t a ks); [exact Hat |].
  intros b. now apply svgBelow_child with id kids.
Qed.

End SelectFacts.

Module LoaderFacts.

Lemma errorsLogged_app (t added : list Event) :
  errorsLogged (t ++ added)%list = (errorsLogged t ++ errorsLogged added)%list.
Proof. apply filter_app. Qed.

Lemma callbackCalls_app (t added : list Event) :
  callbackCalls (t ++ added)%list
  = (callbackCalls t ++ callbackCalls added)%list.
Proof. apply filter_app. Qed.

(** The handler that inserts and places, by what stops it. *)
Lemma insertAndPlace_missing (env : Environment) (target : string)
    (x y : Value) (callback : option Callback) (svg : string) (w : World) :
  getElementById target (page w) = None ->
  insertAndPlace env target x y callback svg w
  = (Throw (VError "TypeError"
              "Cannot set properties of null (setting 'innerHTML')"), w).
Proof.
  intros H. unfold insertAndPlace, bind, setInnerHTML. now rewrite H.
Qed.

Lemma insertAndPlace_refused (env : Environment) (target : string)
    (x y : Value) (callback : option Callback) (svg : string) (w : World)
    (container : Path) (e : Value) :
  getElementById target (page w) = Some container ->
  markupError env svg = Some e ->
  insertAndPlace env target x y callback svg w = (Throw e, w).
Proof.
  intros Hc He. unfold insertAndPlace, bind, setInnerHTML.
  now rewrite Hc, He.
Qed.

Lemma insertAndPlace_selector_throws (env : Environment) (target : string)
    (x y : Value) (callback : option Callback) (svg : string) (w : World)
    (container : Path) (e : Value) :
  getElementById target (page w) = Some container ->
  markupError env svg = None ->
  querySelectorAll env ("#" ++ target ++ " svg")
    (updateAt container (withChildren (parseFragment env svg)) (page w))
  = Throw e ->
  insertAndPlace env target x y callback svg w
  = (Throw e,
     Build_World
       (updateAt container (withChildren (parseFragment env svg)) (page w))
       (trace w ++
        [GsapSet (VStr ("#" ++ target ++ " svg"))
           (VObj [ ("x", x); ("y", y) ])])%list
       (filter (fun entry => negb (isUnder container (fst entry)))
          (placed w))).
Proof.
  intros Hc Hm Hs.
  unfold insertAndPlace, bind, setInnerHTML, gsap_set, emit, bind.
  rewrite Hc, Hm. cbn [page trace placed]. now rewrite Hs.
Qed.

Lemma insertAndPlace_placed (env : Environment) (target : string)
    (x y : Value) (callback : option Callback) (svg : string) (w : World)
    (container : Path) (elements : list Path) :
  getElementById target (page w) = Some container ->
  markupError env svg = None ->
  querySelectorAll env ("#" ++ target ++ " svg")
    (updateAt container (withChildren (parseFragment env svg)) (page w))
  = Normal elements ->
  insertAndPlace env target x y callback svg w
  = (match callback with
     | Some (Throwing e) => Throw e
     | _ => Normal (Fulfilled VUndefined)
     end,
     Build_World
       (updateAt container (withChildren (parseFragment env svg)) (page w))
       (trace w ++
        GsapSet (VStr ("#" ++ target ++ " svg"))
          (VObj [ ("x", x); ("y", y) ])
        :: match callback with
           | Some _ => [CallbackCalled []]
           | None => []
           end)%list
       (map (fun p => (p, VObj [ ("x", x); ("y", y) ])) elements ++
        filter (fun entry => negb (isUnder container (fst entry)))
          (placed w))%list).
Proof.
  intros Hc Hm Hs.
  unfold insertAndPlace, bind, setInnerHTML, gsap_set, call, emit, bind,
    ret, raise.
  rewrite Hc, Hm. cbn [page trace placed]. rewrite Hs.
  destruct callback as [[v|e]|]; cbn [page trace placed];
    rewrite <- ?app_assoc; reflexivity.
Qed.

(** The chain, once the promise of the fetch is known. *)
Lemma reactions_rejected (env : Environment) (target : string) (x y : Value)
    (callback : option Callback) (p : Async Response) (w w1 : World)
    (reason : Value) :
  p w = (Rejected reason, w1) ->
  reactions env target x y callback p w
  = (Fulfilled VUndefined,
     Build_World (page w1)
       (trace w1 ++ [ConsoleError [VStr "Error loading SVG:"; reason]])%list
       (placed w1)).
Proof.
  intros Hp. unfold reactions, catch_, then_, console_error, emit, bind, ret.
  now rewrite Hp.
Qed.

Lemma reactions_unread (env : Environment) (target : string) (x y : Value)
    (callback : option Callback) (p : Async Response) (w w1 : World)
    (response : Response) (reason : Value) :
  p w = (Fulfilled response, w1) ->
  text response = Rejected reason ->
  reactions env target x y callback p w
  = (Fulfilled VUndefined,
     Build_World (page w1)
       (trace w1 ++ [ConsoleError [VStr "Error loading SVG:"; reason]])%list
       (placed w1)).
Proof.
  intros Hp Ht. unfold reactions, catch_, then_, console_error, emit, bind, ret.
  now rewrite Hp, Ht.
Qed.

Lemma reactions_read (env : Environment) (target : string) (x y : Value)
    (callback : option Callback) (p : Async Response) (w w1 : World)
    (response : Response) (svg : string) :
  p w = (Fulfilled response, w1) ->
  text response = Fulfilled svg ->
  reactions env target x y callback p w
  = match insertAndPlace env target x y callback svg w1 with
    | (Normal (Fulfilled a), w2) => (Fulfilled a, w2)
    | (Normal (Rejected e), w2) =>
        (Fulfilled VUndefined,
         Build_World (page w2)
           (trace w2 ++ [ConsoleError [VStr "Error loading SVG:"; e]])%list
           (placed w2))
    | (Throw e, w2) =>
        (Fulfilled VUndefined,
         Build_World (page w2)
           (trace w2 ++ [ConsoleError [VStr "Error loading SVG:"; e]])%list
           (placed w2))
    end.
Proof.
  intros Hp Ht. unfold reactions, catch_, then_, console_error, emit, bind, ret.
  rewrite Hp, Ht.
  destruct (insertAndPlace env target x y callback svg w1) as [[r|e] w2];
    [| reflexivity].
  now destruct r.
Qed.

Lemma fetch_step (env : Environment) (url : string) (w : World) :
  fetch_ env url w
  = (fetch env url,
     Build_World (page w) (trace w ++ [FetchRequested url])%list (placed w)).
Proof. reflexivity. Qed.

(** The run in which the fetch fails or the container is missing. *)
Lemma failure_path (env : Environment) (url target : string) (x y : Value)
    (callback : option Callback) (w : World) :
  fetchFails env url \/ getElementById target (page w) = None ->
  exists error : Value,
    loadSVG_promise env url target x y callback w
    = (Fulfilled VUndefined,
       Build_World (page w)
         (trace w ++
          [FetchRequested url;
           ConsoleError [VStr "Error loading SVG:"; error]])%list
         (placed w)).
Proof.
  unfold fetchFails, loadSVG_promise. intros H.
  pose proof (fetch_step env url w) as Hp.
  destruct (fetch env url) as [response|reason].
  - destruct (text response) as [svg|reason] eqn:Ht.
    + destruct H as [[] | H].
      rewrite (reactions_read _ _ _ _ _ _ _ _ _ _ Hp Ht).
      rewrite insertAndPlace_missing by exact H.
      eexists. cbn [page trace placed]. rewrite <- app_assoc. reflexivity.
    + rewrite (reactions_unread _ _ _ _ _ _ _ _ _ _ Hp Ht).
      eexists. cbn [page trace placed]. rewrite <- app_assoc. reflexivity.
  - rewrite (reactions_rejected _ _ _ _ _ _ _ _ _ Hp).
    eexists. cbn [page trace placed]. rewrite <- app_assoc. reflexivity.
Qed.

(** The run in which the markup arrives and is refused. *)
Lemma refused_path (env : Environment) (url target : string) (x y : Value)
    (callback : option Callback) (w : World) (response : Response)
    (svg : string) (container : Path) (e : Value) :
  fetch env url = Fulfilled response ->
  text response = Fulfilled svg ->
  getElementById target (page w) = Some container ->
  markupError env svg = Some e ->
  loadSVG_promise env url target x y callback w
  = (Fulfilled VUndefined,
     Build_World (page w)
       (trace w ++
        [FetchRequested url; ConsoleError [VStr "Error loading SVG:"; e]])%list
       (placed w)).
Proof.
  intros Hf Ht Hc He. unfold loadSVG_promise.
  pose proof (fetch_step env url w) as Hp. rewrite Hf in Hp.
  rewrite (reactions_read _ _ _ _ _ _ _ _ _ _ Hp Ht).
  rewrite (insertAndPlace_refused _ _ _ _ _ _ _ container e) by assumption.
  cbn [page trace placed]. now rewrite <- app_assoc.
Qed.

(** The run in which the selector cannot be read. *)
Lemma selector_path (env : Environment) (url target : string) (x y : Value)
    (callback : option Callback) (w : World) (response : Response)
    (svg : string) (container : Path) (e : Value) :
  fetch env url = Fulfilled response ->
  text response = Fulfilled svg ->
  getElementById target (page w) = Some container ->
  markupError env svg = None ->
  querySelectorAll env ("#" ++ target ++ " svg")
    (updateAt container (withChildren (parseFragment env svg)) (page w))
  = Throw e ->
  loadSVG_promise env url target x y callback w
  = (Fulfilled VUndefined,
     Build_World
       (updateAt container (withChildren (parseFragment env svg)) (page w))
       (trace w ++
        [FetchRequested url;
         GsapSet (VStr ("#" ++ target ++ " svg")) (VObj [ ("x", x); ("y", y) ]);
         ConsoleError [VStr "Error loading SVG:"; e]])%list
       (filter (fun entry => negb (isUnder container (fst entry)))
          (placed w))).
Proof.
  intros Hf Ht Hc Hm Hs. unfold loadSVG_promise.
  pose proof (fetch_step env url w) as Hp. rewrite Hf in Hp.
  rewrite (reactions_read _ _ _ _ _ _ _ _ _ _ Hp Ht).
  rewrite (insertAndPlace_selector_throws _ _ _ _ _ _ _ container e)
    by assumption.
  cbn [page trace placed]. now rewrite <- !app_assoc.
Qed.

(** The run in which the markup arrives, is accepted, and the selector is
    answered. *)
Lemma success_path (env : Environment) (url target : string) (x y : Value)
    (callback : option Callback) (w : World) (response : Response)
    (svg : string) (container : Path) (elements : list Path) :
  fetch env url = Fulfilled response ->
  text response = Fulfilled svg ->
  getElementById target (page w) = Some container ->
  markupError env svg = None ->
  querySelectorAll env ("#" ++ target ++ " svg")
    (updateAt container (withChildren (parseFragment env svg)) (page w))
  = Normal elements ->
  loadSVG_promise env url target x y callback w
  = (Fulfilled VUndefined,
     Build_World
       (updateAt container (withChildren (parseFragment env svg)) (page w))
       (trace w ++
        FetchRequested url
        :: GsapSet (VStr ("#" ++ target ++ " svg"))
                   (VObj [ ("x", x); ("y", y) ])
        :: match callback with
           | None => []
           | Some (Returning _) => [CallbackCalled []]
           | Some (Throwing e) =>
               [CallbackCalled [];
                ConsoleError [VStr "Error loading SVG:"; e]]
           end)%list
       (map (fun p => (p, VObj [ ("x", x); ("y", y) ])) elements ++
        filter (fun entry => negb (isUnder container (fst entry)))
          (placed w))%list).
Proof.
  intros Hf Ht Hc Hm Hs. unfold loadSVG_promise.
  pose proof (fetch_step env url w) as Hp. rewrite Hf in Hp.
  rewrite (reactions_read _ _ _ _ _ _ _ _ _ _ Hp Ht).
  rewrite (insertAndPlace_placed _ _ _ _ _ _ _ container elements)
    by assumption.
  destruct callback as [[v|e]|]; cbn [page trace placed];
    rewrite <- ?app_assoc; reflexivity.
Qed.

End LoaderFacts.

(** C3.  When the fetch fails (the request is rejected or the body cannot be
    read) or the container does not exist, [loadSVG] returns at once without
    throwing and its promise ends fulfilled, so that nothing is left to
    escape; the page is left as it was; the callback is not called; and
    [console.error] is called once, with ["Error loading SVG:"] and the
    error. *)
Theorem loadSVG_failure
    (env : Environment) (url target : string) (x y : Value)
    (callback : option Callback) (w : World)
    (Hfail : fetchFails env url \/ getElementById target (page w) = None) :
  exists (w' : World) (error : Value),
    loadSVG env url target x y callback w = (Normal VUndefined, w') /\
    fst (loadSVG_promise env url target x y callback w) = Fulfilled VUndefined /\
    page w' = page w /\
    trace w'
    = (trace w ++
       [FetchRequested url;
        ConsoleError [VStr "Error loading SVG:"; error]])%list /\
    callbackCalls (trace w') = callbackCalls (trace w) /\
    errorsLogged (trace w')
    = (errorsLogged (trace w) ++
       [ConsoleError [VStr "Error loading SVG:"; error]])%list.
Proof.
  destruct (LoaderFacts.failure_path env url target x y callback w Hfail)
    as (error & Hrun).
  eexists. exists error.
  split; [unfold loadSVG; rewrite Hrun; reflexivity |].
  rewrite Hrun. cbn [fst snd page trace].
  repeat split.
  - rewrite LoaderFacts.callbackCalls_app. simpl. apply app_nil_r.
  - now rewrite LoaderFacts.errorsLogged_app.
Qed.

Lemma loadSVG_failure_offline :
  (fetchFails sampleEnvironment "/offline.svg" \/
   getElementById "scene" (page (mkWorld hostPage [])) = None) /\
  exists w' : World,
    loadSVG sampleEnvironment "/offline.svg" "scene" (int 0) (int 0)
      (Some (Returning VUndefined)) (mkWorld hostPage [])
    = (Normal VUndefined, w') /\
    page w' = hostPage /\
    callbackCalls (trace w') = [] /\
    List.length (errorsLogged (trace w')) = 1%nat.
Proof.
  assert (Hfail : fetchFails sampleEnvironment "/offline.svg" \/
                  getElementById "scene" (page (mkWorld hostPage [])) = None).
  { left. exact I. }
  split; [exact Hfail |].
  destruct (loadSVG_failure sampleEnvironment "/offline.svg" "scene"
              (int 0) (int 0) (Some (Returning VUndefined))
              (mkWorld hostPage []) Hfail)
    as (w' & error & Hrun & _ & Hpage & _ & Hcalls & Herrors).
  exists w'. split; [exact Hrun |]. split; [exact Hpage |].
  split; [exact Hcalls |]. now rewrite Herrors.
Defined.

(** C2, as the code has it.  When the fetch delivers the markup, the
    container exists, the [innerHTML] setter accepts the markup and the
    selector ["#target svg"] is answered with the [svg] elements below the
    elements that carry the ID, [loadSVG] returns at once and, once its
    promise has settled: the container is still the element found under the
    ID and its children are the nodes parsed from the markup, whatever it
    held before; then [x] and [y] have been set on every [svg] element below
    it, each [svg] element the markup puts right into the container among
    them; then the callback, when one was passed, has been called with no
    arguments. *)
Theorem loadSVG_success
    (env : Environment) (url target : string) (x y : Value)
    (callback : option Callback) (w : World) (svg : string) (container : Path)
    (Hfetch : fetchGives env url svg)
    (Hcontainer : getElementById target (page w) = Some container)
    (Haccepted : markupError env svg = None)
    (Hselector :
       querySelectorAll env ("#" ++ target ++ " svg")
         (updateAt container (withChildren (parseFragment env svg)) (page w))
       = Normal
           (svgUnder target
              (updateAt container (withChildren (parseFragment env svg))
                 (page w)))) :
  exists (w' : World) (tag id : string) (after : list Event),
    loadSVG env url target x y callback w = (Normal VUndefined, w') /\
    getElementById target (page w') = Some container /\
    nodeAt container (page w')
    = Some (Element tag id (parseFragment env svg)) /\
    (forall p : Path,
       In p (svgUnder target (page w')) ->
       placedAt p w' = Some (VObj [ ("x", x); ("y", y) ])) /\
    (forall (i : nat) (id' : string) (kids : list Node),
       nth_error (parseFragment env svg) i = Some (Element "svg" id' kids) ->
       placedAt (container ++ [i])%list w'
       = Some (VObj [ ("x", x); ("y", y) ])) /\
    trace w'
    = (trace w ++
       FetchRequested url
       :: GsapSet (VStr ("#" ++ target ++ " svg")) (VObj [ ("x", x); ("y", y) ])
       :: after)%list /\
    (callback = None -> after = []) /\
    (forall f, callback = Some f -> hd_error after = Some (CallbackCalled [])) /\
    callbackCalls after
    = match callback with Some _ => [CallbackCalled []] | None => [] end.
Proof.
  destruct Hfetch as (response & Hfetch & Htext).
  pose proof (LoaderFacts.success_path env url target x y callback w
                response svg container _ Hfetch Htext Hcontainer Haccepted
                Hselector) as Hrun.
  unfold getElementById in Hcontainer.
  destruct (DomFacts.find_nodeAt target container (page w) Hcontainer)
    as (t & a & ks & Hat & Ha).
  assert (Hat' : nodeAt container
                   (updateAt container (withChildren (parseFragment env svg))
                      (page w))
                 = Some (Element t a (parseFragment env svg)))
    by now rewrite (DomFacts.nodeAt_updateAt _ _ _ _ Hat).
  assert (Hplaced : forall p : Path,
            In p (svgUnder target
                    (updateAt container (withChildren (parseFragment env svg))
                       (page w))) ->
            placedAt p (snd (loadSVG_promise env url target x y callback w))
            = Some (VObj [ ("x", x); ("y", y) ])).
  { intros p Hp. rewrite Hrun. unfold placedAt. cbn [snd placed].
    now apply SelectFacts.lookupPlaced_hit. }
  eexists. exists t, a. eexists.
  split; [unfold loadSVG; rewrite Hrun; reflexivity |].
  rewrite Hrun in Hplaced. cbn [snd] in Hplaced. cbn [page trace].
  split; [now apply DomFacts.find_withChildren |].
  split; [exact Hat' |].
  split; [exact Hplaced |].
  split.
  { intros i id' kids Hnth. apply Hplaced.
    now apply SelectFacts.svgUnder_inserted with t a (parseFragment env svg)
                                                  id' kids. }
  split; [reflexivity |].
  repeat split.
  - now intros ->.
  - intros f ->. now destruct f.
  - now destruct callback as [[v|e]|].
Qed.

Lemma loadSVG_success_cart :
  fetchGives sampleEnvironment "/cart.svg" "<svg></svg>" /\
  getElementById "scene" hostPage = Some [0; 0]%nat /\
  markupError sampleEnvironment "<svg></svg>" = None /\
  querySelectorAll sampleEnvironment "#scene svg"
    (updateAt [0; 0]%nat
       (withChildren (parseFragment sampleEnvironment "<svg></svg>")) hostPage)
  = Normal [[0; 0; 0]%nat] /\
  exists w' : World,
    loadSVG sampleEnvironment "/cart.svg" "scene" (int 40) (int 25)
      (Some (Returning VUndefined)) (mkWorld hostPage [])
    = (Normal VUndefined, w') /\
    nodeAt [0; 0]%nat (page w')
    = Some (Element "div" "scene" [ Element "svg" "" [] ]) /\
    placedAt [0; 0; 0]%nat w' = Some (VObj [ ("x", int 40); ("y", int 25) ]) /\
    trace w'
    = [ FetchRequested "/cart.svg";
        GsapSet (VStr "#scene svg") (VObj [ ("x", int 40); ("y", int 25) ]);
        CallbackCalled [] ].
Proof.
  assert (Hfetch : fetchGives sampleEnvironment "/cart.svg" "<svg></svg>").
  { eexists. split; reflexivity. }
  split; [exact Hfetch |]. split; [reflexivity |]. split; [reflexivity |].
  split; [reflexivity |].
  destruct (loadSVG_success sampleEnvironment "/cart.svg" "scene"
              (int 40) (int 25) (Some (Returning VUndefined))
              (mkWorld hostPage []) "<svg></svg>" [0; 0]%nat Hfetch eq_refl
              eq_refl eq_refl)
    as (w' & tag & id & after & Hrun & _ & _ & _ & Hplaced & _).
  exists w'. split; [exact Hrun |].
  split; [injection Hrun as <-; reflexivity |].
  split; [exact (Hplaced 0%nat "" [] eq_refl) |].
  injection Hrun as <-. reflexivity.
Defined.

(** The two loads on which C2 fails as the specification words it, with the
    fetch succeeding and the container there.  On an XML page the setter
    throws on the unclosed [<svg>]: the container keeps its placeholder,
    the callback is not called and the error is logged.  On [dottedPage]
    the markup is put into the container and the callback is called, but
    ["#stage.main svg"] selects nothing, so that nothing is set on the
    [svg] element put in. *)
Lemma loadSVG_not_always_placed :
  (fetchGives xmlEnvironment "/broken.svg" "<svg>" /\
   getElementById "scene" hostPage = Some [0; 0]%nat /\
   loadSVG xmlEnvironment "/broken.svg" "scene" (int 40) (int 25)
     (Some (Returning VUndefined)) (mkWorld hostPage [])
   = (Normal VUndefined,
      mkWorld hostPage
        [ FetchRequested "/broken.svg";
          ConsoleError
            [ VStr "Error loading SVG:";
              VError "SyntaxError" "The provided markup is invalid XML" ] ]) /\
   nodeAt [0; 0]%nat hostPage
   = Some (Element "div" "scene" [ Text "loading" ])) /\
  (fetchGives dottedEnvironment "/cart.svg" "<svg></svg>" /\
   getElementById "stage.main" dottedPage = Some [0; 0]%nat /\
   exists w' : World,
     loadSVG dottedEnvironment "/cart.svg" "stage.main" (int 40) (int 25)
       (Some (Returning VUndefined)) (mkWorld dottedPage [])
     = (Normal VUndefined, w') /\
     nodeAt [0; 0]%nat (page w')
     = Some (Element "div" "stage.main" [ Element "svg" "" [] ]) /\
     placedAt [0; 0; 0]%nat w' = None /\
     trace w'
     = [ FetchRequested "/cart.svg";
         GsapSet (VStr "#stage.main svg")
           (VObj [ ("x", int 40); ("y", int 25) ]);
         CallbackCalled [] ]).
Proof.
  split.
  - split; [eexists; split; reflexivity |].
    split; [reflexivity |]. split; reflexivity.
  - split; [eexists; split; reflexivity |].
    split; [reflexivity |]. eexists.
    split; [reflexivity |]. repeat split; reflexivity.
Qed.

(** C9.  [loadSVG] never looks at the status of the response.  Whenever the
    request is answered and the body can be read, with status 404 as with
    any other, the handler that inserts and places runs; when none of its
    steps throws (the container exists, the setter accepts the markup, the
    selector is answered) the body is parsed into the container, [x] and [y]
    are set on the elements of the answer and the callback, when passed, is
    called, and no error is logged unless the callback throws.
    [console.error] is reached only when the request is rejected, the body
    cannot be read, or that handler throws.  A browser that answers the
    request with another status and the same body makes no difference to
    the run.  The older copy of [loadSVG], without the callback parameter,
    behaves as this one called without a callback. *)
Theorem loadSVG_error_branch
    (env : Environment) (url target : string) (x y : Value)
    (callback : option Callback) (w : World) :
  (forall (code : Z) (svg : string) (container : Path) (elements : list Path),
     fetch env url = Fulfilled (mkResponse code (Fulfilled svg)) ->
     getElementById target (page w) = Some container ->
     markupError env svg = None ->
     querySelectorAll env ("#" ++ target ++ " svg")
       (updateAt container (withChildren (parseFragment env svg)) (page w))
     = Normal elements ->
     exists (w' : World) (tag id : string) (after : list Event),
       loadSVG env url target x y callback w = (Normal VUndefined, w') /\
       nodeAt container (page w')
       = Some (Element tag id (parseFragment env svg)) /\
       (forall p : Path,
          In p elements ->
          placedAt p w' = Some (VObj [ ("x", x); ("y", y) ])) /\
       trace w'
       = (trace w ++
          FetchRequested url
          :: GsapSet (VStr ("#" ++ target ++ " svg"))
                     (VObj [ ("x", x); ("y", y) ])
          :: after)%list /\
       callbackCalls after
       = match callback with Some _ => [CallbackCalled []] | None => [] end /\
       (errorsLogged after <> [] -> exists e, callback = Some (Throwing e))) /\
  (errorsLogged (trace (snd (loadSVG env url target x y callback w)))
   <> errorsLogged (trace w) ->
   (exists reason, fetch env url = Rejected reason) \/
   (exists response reason,
      fetch env url = Fulfilled response /\ text response = Rejected reason) \/
   (exists (response : Response) (svg : string) (e : Value) (w2 : World),
      fetch env url = Fulfilled response /\
      text response = Fulfilled svg /\
      insertAndPlace env target x y callback svg
        (Build_World (page w) (trace w ++ [FetchRequested url])%list
           (placed w))
      = (Throw e, w2))) /\
  (forall (code code' : Z) (body : Promise string) (env' : Environment),
     fetch env url = Fulfilled (mkResponse code body) ->
     fetch env' url = Fulfilled (mkResponse code' body) ->
     parseFragment env' = parseFragment env ->
     markupError env' = markupError env ->
     querySelectorAll env' = querySelectorAll env ->
     loadSVG env' url target x y callback w
     = loadSVG env url target x y callback w) /\
  loadSVG_promise_4 env url target x y w
  = loadSVG_promise env url target x y None w.
Proof.
  split; [| split; [| split]].
  - intros code svg container elements Hfetch Hcontainer Haccepted Hselector.
    pose proof (LoaderFacts.success_path env url target x y callback w
                  _ svg container elements Hfetch eq_refl Hcontainer
                  Haccepted Hselector) as Hrun.
    unfold getElementById in Hcontainer.
    destruct (DomFacts.find_nodeAt target container (page w) Hcontainer)
      as (t & a & ks & Hat & _).
    eexists. exists t, a. eexists.
    split; [unfold loadSVG; rewrite Hrun; reflexivity |].
    cbn [snd page trace].
    split; [now rewrite (DomFacts.nodeAt_updateAt _ _ _ _ Hat) |].
    split.
    { intros p Hp. unfold placedAt. cbn [placed].
      now apply SelectFacts.lookupPlaced_hit. }
    split; [reflexivity |].
    split; [now destruct callback as [[v|e]|] |].
    destruct callback as [[v|e]|]; simpl; intros H;
      [now contradiction H | now exists e | now contradiction H].
  - intros Hlogged.
    destruct (fetch env url) as [response|reason] eqn:Hfetch;
      [| left; now exists reason].
    destruct (text response) as [svg|reason] eqn:Htext;
      [| right; left; now exists response, reason].
    right. right. exists response, svg.
    destruct (insertAndPlace env target x y callback svg
                (Build_World (page w) (trace w ++ [FetchRequested url])%list
                   (placed w))) as [[r|e] w2] eqn:Hrun;
      [| now exists e, w2].
    exfalso. apply Hlogged.
    destruct (getElementById target (page w)) as [container|] eqn:Hc;
      [| now rewrite LoaderFacts.insertAndPlace_missing in Hrun].
    destruct (markupError env svg) as [e|] eqn:Hm;
      [now rewrite (LoaderFacts.insertAndPlace_refused _ _ _ _ _ _ _
                      container e) in Hrun |].
    destruct (querySelectorAll env ("#" ++ target ++ " svg")
                (updateAt container (withChildren (parseFragment env svg))
                   (page w))) as [elements|e] eqn:Hs;
      [| now rewrite (LoaderFacts.insertAndPlace_selector_throws _ _ _ _ _ _ _
                        container e) in Hrun].
    destruct callback as [[v|e]|];
      [| now rewrite (LoaderFacts.insertAndPlace_placed _ _ _ _ _ _ _
                        container elements) in Hrun |];
      unfold loadSVG; cbn [snd];
      rewrite (LoaderFacts.success_path env url target x y _ w
                 response svg container elements Hfetch Htext Hc Hm Hs);
      cbn [snd trace]; rewrite LoaderFacts.errorsLogged_app;
      simpl; apply app_nil_r.
  - intros code code' body env' Hfetch Hfetch' Hparse Hmarkup Hselect.
    unfold loadSVG, loadSVG_promise, reactions, insertAndPlace, catch_,
      then_, fetch_, setInnerHTML, gsap_set, bind, ret.
    rewrite Hfetch, Hfetch', Hparse, Hmarkup, Hselect. reflexivity.
  - unfold loadSVG_promise_4, loadSVG_promise, reactions, insertAndPlace,
      catch_, then_, fetch_, setInnerHTML, gsap_set, console_error, emit,
      bind, ret.
    destruct (fetch env url) as [response|reason]; [| reflexivity].
    destruct (text response) as [svg|reason]; [| reflexivity].
    cbn [page trace placed].
    destruct (getElementById target (page w)); [| reflexivity].
    destruct (markupError env svg); [reflexivity |].
    cbn [page trace placed].
    destruct (querySelectorAll env _ _); reflexivity.
Qed.

(** * Further properties of the helpers *)

(** ** Position encoders *)

(** Within the safe integers each encoder tells offsets apart: two offsets
    give the same token only when they are the same offset; leaving the
    argument out is the offset 0. *)
Theorem encoders_injective (a b : Z)
    (Ha : isSafeInteger a) (Hb : isSafeInteger b) :
  (startWithPrevious (Some a) = startWithPrevious (Some b) <-> a = b) /\
  (startAfterPrevious (Some a) = startAfterPrevious (Some b) <-> a = b) /\
  startWithPrevious None = startWithPrevious (Some 0) /\
  startAfterPrevious None = startAfterPrevious (Some 0).
Proof.
  assert (Hwith : forall z, isSafeInteger z ->
            startWithPrevious (Some z)
            = if z =? 0 then "<" else "<" ++ decimal z).
  { intros z Hz. unfold startWithPrevious.
    rewrite (PositionFacts.ofZ_safe z Hz). cbn [isZero].
    now rewrite (PositionFacts.numberToString_safe z Hz). }
  assert (Hafter : forall z, isSafeInteger z ->
            startAfterPrevious (Some z)
            = if z =? 0 then "+=0" else "+=" ++ decimal z).
  { intros z Hz. unfold startAfterPrevious.
    rewrite (PositionFacts.ofZ_safe z Hz). cbn [isZero].
    now rewrite (PositionFacts.numberToString_safe z Hz). }
  split; [| split; [| split; reflexivity]]; split;
    try (intros ->; reflexivity).
  - rewrite (Hwith a Ha), (Hwith b Hb).
    destruct (Z.eqb_spec a 0) as [-> | Ha0], (Z.eqb_spec b 0) as [-> | Hb0];
      cbn [append]; intros H; try reflexivity.
    + injection H as H. symmetry in H.
      now apply PositionFacts.decimal_nonempty in H.
    + injection H as H. now apply PositionFacts.decimal_nonempty in H.
    + injection H as H. now apply PositionFacts.decimal_inj.
  - rewrite (Hafter a Ha), (Hafter b Hb).
    destruct (Z.eqb_spec a 0) as [-> | Ha0], (Z.eqb_spec b 0) as [-> | Hb0];
      cbn [append]; intros H; try reflexivity.
    + injection H as H. rewrite <- PositionFacts.decimal_zero in H.
      now apply PositionFacts.decimal_inj in H.
    + injection H as H. rewrite <- PositionFacts.decimal_zero in H.
      now apply PositionFacts.decimal_inj in H.
    + injection H as H. now apply PositionFacts.decimal_inj.
Qed.

Lemma encoders_injective_at_2_and_5 :
  isSafeInteger 2 /\ isSafeInteger 5 /\
  startWithPrevious (Some 2) <> startWithPrevious (Some 5) /\
  startAfterPrevious (Some 2) <> startAfterPrevious (Some 5).
Proof.
  assert (H2 : isSafeInteger 2) by (unfold isSafeInteger; simpl; lia).
  assert (H5 : isSafeInteger 5) by (unfold isSafeInteger; simpl; lia).
  split; [exact H2 |]. split; [exact H5 |].
  destruct (encoders_injective 2 5 H2 H5) as (Hwith & Hafter & _).
  split; intros H; [apply Hwith in H | apply Hafter in H]; discriminate H.
Defined.

(** A token of [startWithPrevious] is never a token of [startAfterPrevious],
    whatever the two offsets, given or left out. *)
Theorem encoders_never_collide (a b : option Z) :
  startWithPrevious a <> startAfterPrevious b.
Proof.
  unfold startWithPrevious, startAfterPrevious.
  destruct (isZero _), (isZero _); cbn [append]; discriminate.
Qed.

(** ** The lights *)

(** What [switchLights] adds does not depend on what the timeline holds: the
    segments added to any timeline are those added to an empty one. *)
Theorem switchLights_ignores_timeline
    (lights : list Value) (delay : Number) (tl : Timeline) :
  exists added : list Segment,
    switchLights lights delay [] = (Normal VUndefined, added) /\
    switchLights lights delay tl = (Normal VUndefined, (tl ++ added)%list).
Proof.
  destruct (TimelineFacts.switchLights_run lights delay [])
    as (added0 & Hrun0 & Hlen0 & Hnth0).
  destruct (TimelineFacts.switchLights_run lights delay tl)
    as (added & Hrun & Hlen & Hnth).
  exists added0. split; [exact Hrun0 |].
  rewrite Hrun. do 2 f_equal.
  apply nth_error_ext. intros i.
  destruct (nth_error lights i) as [l|] eqn:El.
  - now rewrite (Hnth i l El), (Hnth0 i l El).
  - apply nth_error_None in El.
    assert (H : nth_error added i = None)
      by (apply nth_error_None; now rewrite Hlen).
    assert (H0 : nth_error added0 i = None)
      by (apply nth_error_None; now rewrite Hlen0).
    now rewrite H, H0.
Qed.

(** With a delay of 0 every light gets the same position, ["+=0"], which is
    the token of [startAfterPrevious()]. *)
Theorem switchLights_zero_delay (lights : list Value) (tl : Timeline) :
  exists added : list Segment,
    switchLights lights (ofZ 0) tl
    = (Normal VUndefined, (tl ++ added)%list) /\
    Forall (fun seg => seg_position seg = VStr (startAfterPrevious None)) added.
Proof.
  destruct (TimelineFacts.switchLights_run lights (ofZ 0) tl)
    as (added & Hrun & Hlen & Hnth).
  exists added. split; [exact Hrun |].
  apply Forall_forall. intros seg Hin.
  apply In_nth_error in Hin as (i & Hi).
  destruct (TimelineFacts.added_segment lights (ofZ 0) added Hlen Hnth i seg Hi)
    as (light & _ & ->).
  cbn [seg_position].
  assert (Hsafe : isSafeInteger 0) by (unfold isSafeInteger; simpl; lia).
  rewrite TimelineFacts.token_safe by (rewrite ?Z.mul_0_l; exact Hsafe).
  now rewrite Z.mul_0_l.
Qed.

(** With a delay other than 0 whose products with the indices stay within
    the safe integers, lights at different indices get different positions;
    the first light always gets ["+=0"]. *)
Theorem switchLights_positions_distinct
    (lights : list Value) (delay : Z) (tl : Timeline)
    (Hdelay : delay <> 0)
    (Hsafe : isSafeInteger (delay * Z.of_nat (List.length lights))) :
  exists added : list Segment,
    switchLights lights (ofZ delay) tl
    = (Normal VUndefined, (tl ++ added)%list) /\
    (forall (i j : nat) (si sj : Segment),
       nth_error added i = Some si ->
       nth_error added j = Some sj ->
       seg_position si = seg_position sj ->
       i = j) /\
    (forall s0 : Segment,
       nth_error added 0 = Some s0 -> seg_position s0 = VStr "+=0").
Proof.
  destruct (TimelineFacts.switchLights_run lights (ofZ delay) tl)
    as (added & Hrun & Hlen & Hnth).
  pose proof (TimelineFacts.added_segment lights (ofZ delay) added Hlen Hnth)
    as Hseg.
  assert (Htoken : forall (i : nat) (seg : Segment),
            nth_error added i = Some seg ->
            seg_position seg = VStr ("+=" ++ decimal (delay * Z.of_nat i))).
  { intros i seg Hi.
    destruct (Hseg i seg Hi) as (light & Hlight & ->).
    assert (Hlt : (i < List.length lights)%nat)
      by (apply nth_error_Some; congruence).
    unfold isSafeInteger in Hsafe.
    cbn [seg_position].
    rewrite TimelineFacts.token_safe by (unfold isSafeInteger; nia).
    reflexivity. }
  exists added. split; [exact Hrun |]. split.
  - intros i j si sj Hi Hj Heq.
    rewrite (Htoken i si Hi), (Htoken j sj Hj) in Heq.
    injection Heq as Heq. apply PositionFacts.decimal_inj in Heq.
    apply Z.mul_reg_l in Heq; [lia | exact Hdelay].
  - intros s0 H0. rewrite (Htoken _ s0 H0). now rewrite Z.mul_0_r.
Qed.

Lemma switchLights_positions_distinct_two :
  2 <> 0 /\
  isSafeInteger
    (2 * Z.of_nat (List.length [VStr "#red"; VStr "#amber"])) /\
  exists added : list Segment,
    switchLights [VStr "#red"; VStr "#amber"] (ofZ 2) []
    = (Normal VUndefined, ([] ++ added)%list) /\
    forall (i j : nat) (si sj : Segment),
      nth_error added i = Some si ->
      nth_error added j = Some sj ->
      seg_position si = seg_position sj ->
      i = j.
Proof.
  assert (Hsafe : isSafeInteger
                    (2 * Z.of_nat (List.length [VStr "#red"; VStr "#amber"])))
    by (unfold isSafeInteger; simpl; lia).
  split; [lia |]. split; [exact Hsafe |].
  destruct (switchLights_positions_distinct
              [VStr "#red"; VStr "#amber"] 2 [] ltac:(lia) Hsafe)
    as (added & Hrun & Hdistinct & _).
  exists added. split; assumption.
Defined.


(** The position of a light is the product of the delay and the index as a
    double, printed as a template literal prints it.  A delay of a tenth of
    a second puts four lights at ["+=0"], ["+=0.1"], ["+=0.2"] and
    ["+=0.30000000000000004"]; a delay of 5 * 10^20 puts the third light at
    ["+=1e+21"]; a delay of 2^1023 puts the third and the fourth light both
    at ["+=Infinity"]; an infinite delay puts the first light at ["+=NaN"];
    and a delay that is not a number puts every light at ["+=NaN"]. *)
Theorem switchLights_positions_as_printed
    (a b c d : Value) (tl : Timeline) :
  (exists added : list Segment,
     switchLights [a; b; c; d] (roundRational 1 10) tl
     = (Normal VUndefined, (tl ++ added)%list) /\
     map seg_position added
     = [ VStr "+=0"; VStr "+=0.1"; VStr "+=0.2";
         VStr "+=0.30000000000000004" ]) /\
  (exists added : list Segment,
     switchLights [a; b; c] (ofZ (5 * 10 ^ 20)) tl
     = (Normal VUndefined, (tl ++ added)%list) /\
     map seg_position added
     = [ VStr "+=0"; VStr "+=500000000000000000000"; VStr "+=1e+21" ]) /\
  (exists added : list Segment,
     switchLights [a; b; c; d] (ofZ (2 ^ 1023)) tl
     = (Normal VUndefined, (tl ++ added)%list) /\
     map seg_position (skipn 2 added)
     = [ VStr "+=Infinity"; VStr "+=Infinity" ]) /\
  (exists added : list Segment,
     switchLights [a; b] (Infinite false) tl
     = (Normal VUndefined, (tl ++ added)%list) /\
     map seg_position added = [ VStr "+=NaN"; VStr "+=Infinity" ]) /\
  (exists added : list Segment,
     switchLights [a; b] NaN tl = (Normal VUndefined, (tl ++ added)%list) /\
     map seg_position added = [ VStr "+=NaN"; VStr "+=NaN" ]).
Proof.
  repeat split;
    (eexists; split;
     [ unfold switchLights, forEach; cbn [forEachFrom];
       unfold bind, to, ret; rewrite <- ?app_assoc; cbn [app]; reflexivity
     | vm_compute; reflexivity ]).
Qed.
(** ** The path helpers *)

(** [moveOnPath] adds one segment and returns nothing.  Its position is one
    of the two zero-offset tokens of the encoders: that of
    [startWithPrevious()] when the flag is truthy, that of
    [startAfterPrevious()] when it is falsy or left out.  The duration is the
    one passed in, and the element is aligned by the [centerCenter] entry of
    [PositionReference]. *)
Theorem moveOnPath_segment
    (id path duration flag : Value) (tl : Timeline) :
  exists (seg : Segment) (motionPath : Value) (px py : Q),
    moveOnPath id path duration flag tl
    = (Normal VUndefined, (tl ++ [seg])%list) /\
    seg_target seg = id /\
    getProp "duration" (seg_vars seg) = Some duration /\
    (truthy flag = true -> seg_position seg = VStr (startWithPrevious None)) /\
    (truthy flag = false -> seg_position seg = VStr (startAfterPrevious None)) /\
    getProp "motionPath" (seg_vars seg) = Some motionPath /\
    getProp "path" motionPath = Some path /\
    getProp "align" motionPath = Some path /\
    lookup "centerCenter" PositionReference = Some (px, py) /\
    getProp "alignOrigin" motionPath = Some (VArr [VNum px; VNum py]).
Proof.
  do 4 eexists. split; [apply TimelineFacts.to_then_return |].
  cbn [seg_target seg_vars seg_position].
  split; [reflexivity |]. split; [reflexivity |].
  split; [| split].
  - intros H. destruct flag; simpl in *; try discriminate; now rewrite ?H.
  - intros H. destruct flag; simpl in *; try discriminate; now rewrite ?H.
  - repeat split; reflexivity.
Qed.

(** [moveAlong] adds one segment and returns nothing.  A position left out
    (or [undefined]) becomes [null] and a repeat left out becomes 0; any
    other value, [null] included, is passed on as given.  The path is used
    both as the path to follow and as the shape to align to. *)
Theorem moveAlong_defaults
    (elementId pathId position repeat : Value) (tl : Timeline) :
  exists (seg : Segment) (motionPath : Value),
    moveAlong elementId pathId position repeat tl
    = (Normal VUndefined, (tl ++ [seg])%list) /\
    seg_target seg = elementId /\
    (position = VUndefined -> seg_position seg = VNull) /\
    (position <> VUndefined -> seg_position seg = position) /\
    (repeat = VUndefined -> getProp "repeat" (seg_vars seg) = Some (int 0)) /\
    (repeat <> VUndefined -> getProp "repeat" (seg_vars seg) = Some repeat) /\
    getProp "motionPath" (seg_vars seg) = Some motionPath /\
    getProp "path" motionPath = Some pathId /\
    getProp "align" motionPath = Some pathId.
Proof.
  do 2 eexists. split; [apply TimelineFacts.to_then_return |].
  cbn [seg_target seg_vars seg_position].
  split; [reflexivity |].
  split; [now intros -> |].
  split; [intros H; now destruct position |].
  split; [now intros -> |].
  split; [intros H; now destruct repeat |].
  repeat split; reflexivity.
Qed.

(** The two path helpers agree where they overlap: for the same element and
    path, [moveOnPath] with duration 1 and a truthy flag, and [moveAlong]
    with the token of [startWithPrevious()], add segments with the same
    target, position, duration, ease, path and alignment. *)
Theorem path_helpers_agree (element path : Value) (tl : Timeline) :
  exists (onPath along mp1 mp2 : Value) (p : Value),
    moveOnPath element path (int 1) (VBool true) tl
    = (Normal VUndefined,
       (tl ++ [mkSegment element onPath p])%list) /\
    moveAlong element path (VStr (startWithPrevious None)) VUndefined tl
    = (Normal VUndefined,
       (tl ++ [mkSegment element along p])%list) /\
    getProp "duration" onPath = getProp "duration" along /\
    getProp "ease" onPath = getProp "ease" along /\
    getProp "motionPath" onPath = Some mp1 /\
    getProp "motionPath" along = Some mp2 /\
    getProp "path" mp1 = getProp "path" mp2 /\
    getProp "align" mp1 = getProp "align" mp2 /\
    getProp "alignOrigin" mp1 = getProp "alignOrigin" mp2 /\
    getProp "autoRotate" mp1 = Some (VBool false) /\
    getProp "autoRotate" mp2 = None /\
    getProp "repeat" onPath = None /\
    getProp "repeat" along = Some (int 0).
Proof.
  do 5 eexists. split; [apply TimelineFacts.to_then_return |].
  split; [apply TimelineFacts.to_then_return |].
  repeat split; reflexivity.
Qed.

(** ** The reference tables *)

(** A name found in both tables stands for the same point: the percentages
    of [TransformOrigin] are the progress values of [PositionReference]. *)
Theorem tables_agree (name s : string) (px py : Q)
    (Horigin : lookup name TransformOrigin = Some s)
    (Hreference : lookup name PositionReference = Some (px, py)) :
  s = asPercent px ++ " " ++ asPercent py.
Proof.
  unfold TransformOrigin in Horigin. cbn [lookup] in Horigin.
  repeat match type of Horigin with
         | context [String.eqb ?k name] =>
             destruct (String.eqb_spec k name) as [<- | _];
             [ injection Horigin as <-; vm_compute in Hreference;
               first [ discriminate Hreference
                     | injection Hreference as <- <-; reflexivity ] |]
         end.
  discriminate.
Qed.

Lemma tables_agree_topRight :
  lookup "topRight" TransformOrigin = Some "100% 0%" /\
  lookup "topRight" PositionReference = Some (1 # 1, 0 # 1)%Q /\
  "100% 0%" = asPercent (1 # 1) ++ " " ++ asPercent (0 # 1).
Proof.
  split; [reflexivity |]. split; [reflexivity |].
  apply (tables_agree "topRight" "100% 0%" (1 # 1) (0 # 1));
    reflexivity.
Defined.

(** ** More on loading *)

Module LoaderMore.

Lemma nth_error_updateNth_same {A} (g : A -> A) (l : list A) :
  forall i : nat,
    nth_error (updateNth i g l) i = option_map g (nth_error l i).
Proof.
  induction l as [|x l IH]; intros [|i]; simpl; auto.
Qed.

Lemma nth_error_updateNth_other {A} (g : A -> A) (l : list A) :
  forall i j : nat, i <> j ->
    nth_error (updateNth j g l) i = nth_error l i.
Proof.
  induction l as [|x l IH]; intros [|i] [|j] H; simpl; auto;
    try contradiction.
Qed.

(** An update leaves alone what lies off the way to the node updated. *)
Lemma nodeAt_updateAt_diverge (f : Node -> Node) (p q : Path) :
  diverge p q ->
  forall n : Node, nodeAt p (updateAt q f n) = nodeAt p n.
Proof.
  intros (common & i & j & r1 & r2 & Hij & -> & ->).
  induction common as [|c common IH]; intros n; simpl.
  - destruct n as [t a ks|s]; [| reflexivity]. simpl.
    now rewrite nth_error_updateNth_other.
  - destruct n as [t a ks|s]; [| reflexivity]. simpl.
    rewrite nth_error_updateNth_same.
    destruct (nth_error ks c) as [m|]; simpl; [apply IH | reflexivity].
Qed.

Lemma updateNth_twice {A} (f g h : A -> A) (l : list A) :
  (forall x, g (f x) = h x) ->
  forall i : nat, updateNth i g (updateNth i f l) = updateNth i h l.
Proof.
  intros H. induction l as [|x l IH]; intros [|i]; simpl; auto.
  - now rewrite H.
  - now rewrite IH.
Qed.

(** Setting the children twice keeps the second setting only. *)
Lemma updateAt_withChildren_twice (first second : list Node) (p : Path) :
  forall n : Node,
    updateAt p (withChildren second) (updateAt p (withChildren first) n)
    = updateAt p (withChildren second) n.
Proof.
  induction p as [|i p IH]; intros n; simpl.
  - now destruct n.
  - destruct n as [t a ks|s]; [| reflexivity].
    now rewrite (updateNth_twice _ _ _ ks IH).
Qed.

Lemma diverge_not_under (p c : Path) : diverge p c -> isUnder c p = false.
Proof.
  intros (common & i & j & r1 & r2 & Hij & -> & ->).
  induction common as [|k common IH]; cbn [app isUnder].
  - destruct (Nat.eqb_spec j i); [congruence | reflexivity].
  - now rewrite Nat.eqb_refl, IH.
Qed.

(** Every run of the promise of [loadSVG] is one of four. *)
Lemma run_cases (env : Environment) (url target : string) (x y : Value)
    (callback : option Callback) (w : World) :
  (exists error : Value,
     (fetchFails env url \/ getElementById target (page w) = None) /\
     loadSVG_promise env url target x y callback w
     = (Fulfilled VUndefined,
        Build_World (page w)
          (trace w ++
           [FetchRequested url;
            ConsoleError [VStr "Error loading SVG:"; error]])%list
          (placed w))) \/
  (exists (svg : string) (container : Path) (e : Value),
     fetchGives env url svg /\
     getElementById target (page w) = Some container /\
     markupError env svg = Some e /\
     loadSVG_promise env url target x y callback w
     = (Fulfilled VUndefined,
        Build_World (page w)
          (trace w ++
           [FetchRequested url;
            ConsoleError [VStr "Error loading SVG:"; e]])%list
          (placed w))) \/
  (exists (svg : string) (container : Path) (e : Value),
     fetchGives env url svg /\
     getElementById target (page w) = Some container /\
     markupError env svg = None /\
     querySelectorAll env ("#" ++ target ++ " svg")
       (updateAt container (withChildren (parseFragment env svg)) (page w))
     = Throw e /\
     loadSVG_promise env url target x y callback w
     = (Fulfilled VUndefined,
        Build_World
          (updateAt container (withChildren (parseFragment env svg)) (page w))
          (trace w ++
           [FetchRequested url;
            GsapSet (VStr ("#" ++ target ++ " svg"))
              (VObj [ ("x", x); ("y", y) ]);
            ConsoleError [VStr "Error loading SVG:"; e]])%list
          (filter (fun entry => negb (isUnder container (fst entry)))
             (placed w)))) \/
  (exists (svg : string) (container : Path) (elements : list Path),
     fetchGives env url svg /\
     getElementById target (page w) = Some container /\
     markupError env svg = None /\
     querySelectorAll env ("#" ++ target ++ " svg")
       (updateAt container (withChildren (parseFragment env svg)) (page w))
     = Normal elements /\
     loadSVG_promise env url target x y callback w
     = (Fulfilled VUndefined,
        Build_World
          (updateAt container (withChildren (parseFragment env svg)) (page w))
          (trace w ++
           FetchRequested url
           :: GsapSet (VStr ("#" ++ target ++ " svg"))
                      (VObj [ ("x", x); ("y", y) ])
           :: match callback with
              | None => []
              | Some (Returning _) => [CallbackCalled []]
              | Some (Throwing e) =>
                  [CallbackCalled [];
                   ConsoleError [VStr "Error loading SVG:"; e]]
              end)%list
          (map (fun p => (p, VObj [ ("x", x); ("y", y) ])) elements ++
           filter (fun entry => negb (isUnder container (fst entry)))
             (placed w))%list)).
Proof.
  destruct (getElementById target (page w)) as [container|] eqn:Hc.
  - destruct (fetch env url) as [response|reason] eqn:Hf.
    + destruct (text response) as [svg|reason] eqn:Ht.
      * assert (Hgives : fetchGives env url svg) by now exists response.
        destruct (markupError env svg) as [e|] eqn:Hm.
        { right. left. exists svg, container, e.
          repeat split; auto.
          now apply LoaderFacts.refused_path with response svg container. }
        destruct (querySelectorAll env ("#" ++ target ++ " svg")
                    (updateAt container
                       (withChildren (parseFragment env svg)) (page w)))
          as [elements|e] eqn:Hs.
        { right. right. right. exists svg, container, elements.
          repeat split; auto.
          now apply LoaderFacts.success_path with response. }
        right. right. left. exists svg, container, e.
        repeat split; auto.
        now apply LoaderFacts.selector_path with response.
      * left.
        assert (Hfail : fetchFails env url \/
                        getElementById target (page w) = None).
        { left. unfold fetchFails. now rewrite Hf, Ht. }
        destruct (LoaderFacts.failure_path env url target x y callback w Hfail)
          as (error & Hrun).
        exists error. split; [| exact Hrun].
        left. unfold fetchFails. now rewrite Hf, Ht.
    + left.
      assert (Hfail : fetchFails env url \/
                      getElementById target (page w) = None).
      { left. unfold fetchFails. now rewrite Hf. }
      destruct (LoaderFacts.failure_path env url target x y callback w Hfail)
        as (error & Hrun).
      exists error. split; [| exact Hrun].
      left. unfold fetchFails. now rewrite Hf.
  - left.
    assert (Hfail : fetchFails env url \/
                    getElementById target (page w) = None) by now right.
    destruct (LoaderFacts.failure_path env url target x y callback w Hfail)
      as (error & Hrun).
    exists error. split; [now right | exact Hrun].
Qed.

(** Whatever the selector and the callback do, a chain that reads the body
    and finds the container and a setter that accepts the markup leaves the
    markup in the container. *)
Lemma reactions_inserted (env : Environment) (target : string) (x y : Value)
    (callback : option Callback) (p : Async Response) (w w1 : World)
    (response : Response) (svg : string) (container : Path) :
  p w = (Fulfilled response, w1) ->
  text response = Fulfilled svg ->
  getElementById target (page w1) = Some container ->
  markupError env svg = None ->
  exists (w2 : World) (rest : list Event),
    reactions env target x y callback p w = (Fulfilled VUndefined, w2) /\
    page w2
    = updateAt container (withChildren (parseFragment env svg)) (page w1) /\
    trace w2 = (trace w1 ++ rest)%list.
Proof.
  intros Hp Ht Hc Hm.
  rewrite (LoaderFacts.reactions_read _ _ _ _ _ _ _ _ _ _ Hp Ht).
  destruct (querySelectorAll env ("#" ++ target ++ " svg")
              (updateAt container (withChildren (parseFragment env svg))
                 (page w1))) as [elements|e] eqn:Hs.
  - rewrite (LoaderFacts.insertAndPlace_placed _ _ _ _ _ _ _
               container elements Hc Hm Hs).
    destruct callback as [[v|e]|]; do 2 eexists;
      (split; [reflexivity |]); cbn [page trace];
      (split; [reflexivity |]); rewrite <- ?app_assoc; reflexivity.
  - rewrite (LoaderFacts.insertAndPlace_selector_throws _ _ _ _ _ _ _
               container e Hc Hm Hs).
    do 2 eexists. split; [reflexivity |]. cbn [page trace].
    split; [reflexivity |]. rewrite <- ?app_assoc. reflexivity.
Qed.

End LoaderMore.

(** Whatever the network and the page do, one call of [loadSVG] makes one
    request, its promise ends fulfilled with [undefined], and what follows
    the request is one of five courses: an error logged and the page
    untouched; or the container filled and [gsap.set] called, followed by
    nothing, by the call of the callback, by that call and the logging of
    what the callback threw, or by the logging of what the selector engine
    threw. *)
Theorem loadSVG_outcomes
    (env : Environment) (url target : string) (x y : Value)
    (callback : option Callback) (w : World) :
  exists (w' : World) (after : list Event),
    loadSVG env url target x y callback w = (Normal VUndefined, w') /\
    loadSVG_promise env url target x y callback w = (Fulfilled VUndefined, w') /\
    trace w' = (trace w ++ FetchRequested url :: after)%list /\
    ((exists error,
        after = [ConsoleError [VStr "Error loading SVG:"; error]] /\
        page w' = page w) \/
     (exists (svg : string) (container : Path) (tail : list Event),
        getElementById target (page w) = Some container /\
        page w'
        = updateAt container (withChildren (parseFragment env svg)) (page w) /\
        after
        = GsapSet (VStr ("#" ++ target ++ " svg"))
                  (VObj [ ("x", x); ("y", y) ]) :: tail /\
        (tail = [] \/
         tail = [CallbackCalled []] \/
         (exists e,
            tail = [CallbackCalled [];
                    ConsoleError [VStr "Error loading SVG:"; e]]) \/
         (exists e,
            tail = [ConsoleError [VStr "Error loading SVG:"; e]])))).
Proof.
  destruct (LoaderMore.run_cases env url target x y callback w)
    as [(error & _ & Hrun)
       | [(svg & container & e & _ & _ & _ & Hrun)
         | [(svg & container & e & _ & Hc & _ & _ & Hrun)
           | (svg & container & elements & _ & Hc & _ & _ & Hrun)]]].
  - do 2 eexists. split; [unfold loadSVG; rewrite Hrun; reflexivity |].
    split; [exact Hrun |]. split; [reflexivity |].
    left. exists error. split; reflexivity.
  - do 2 eexists. split; [unfold loadSVG; rewrite Hrun; reflexivity |].
    split; [exact Hrun |]. split; [reflexivity |].
    left. exists e. split; reflexivity.
  - do 2 eexists. split; [unfold loadSVG; rewrite Hrun; reflexivity |].
    split; [exact Hrun |]. split; [reflexivity |].
    right. exists svg, container. eexists.
    split; [exact Hc |]. split; [reflexivity |]. split; [reflexivity |].
    right. right. right. now exists e.
  - do 2 eexists. split; [unfold loadSVG; rewrite Hrun; reflexivity |].
    split; [exact Hrun |]. split; [reflexivity |].
    right. exists svg, container. eexists.
    split; [exact Hc |]. split; [reflexivity |]. split; [reflexivity |].
    destruct callback as [[v|e]|];
      [right; now left | right; right; left; now exists e | now left].
Qed.

(** When the callback throws after the markup was accepted and the selector
    answered, the container has been filled and [x] and [y] set on the
    elements of the answer before; what the callback threw is caught and
    logged once under ["Error loading SVG:"], and nothing reaches the
    caller. *)
Theorem loadSVG_callback_throws
    (env : Environment) (url target : string) (x y : Value) (w : World)
    (svg : string) (container : Path) (elements : list Path) (e : Value)
    (Hfetch : fetchGives env url svg)
    (Hcontainer : getElementById target (page w) = Some container)
    (Haccepted : markupError env svg = None)
    (Hselector :
       querySelectorAll env ("#" ++ target ++ " svg")
         (updateAt container (withChildren (parseFragment env svg)) (page w))
       = Normal elements) :
  loadSVG_promise env url target x y (Some (Throwing e)) w
  = (Fulfilled VUndefined,
     Build_World
       (updateAt container (withChildren (parseFragment env svg)) (page w))
       (trace w ++
        [ FetchRequested url;
          GsapSet (VStr ("#" ++ target ++ " svg")) (VObj [ ("x", x); ("y", y) ]);
          CallbackCalled [];
          ConsoleError [VStr "Error loading SVG:"; e] ])%list
       (map (fun p => (p, VObj [ ("x", x); ("y", y) ])) elements ++
        filter (fun entry => negb (isUnder container (fst entry)))
          (placed w))%list) /\
  fst (loadSVG env url target x y (Some (Throwing e)) w) = Normal VUndefined.
Proof.
  destruct Hfetch as (response & Hfetch & Htext).
  split; [| reflexivity].
  exact (LoaderFacts.success_path env url target x y (Some (Throwing e)) w
           response svg container elements Hfetch Htext Hcontainer
           Haccepted Hselector).
Qed.

Lemma loadSVG_callback_throws_cart :
  fetchGives sampleEnvironment "/cart.svg" "<svg></svg>" /\
  getElementById "scene" hostPage = Some [0; 0]%nat /\
  markupError sampleEnvironment "<svg></svg>" = None /\
  trace (snd (loadSVG_promise sampleEnvironment "/cart.svg" "scene"
                (int 1) (int 2) (Some (Throwing (VStr "boom")))
                (mkWorld hostPage [])))
  = [ FetchRequested "/cart.svg";
      GsapSet (VStr "#scene svg") (VObj [ ("x", int 1); ("y", int 2) ]);
      CallbackCalled [];
      ConsoleError [VStr "Error loading SVG:"; VStr "boom"] ].
Proof.
  assert (Hfetch : fetchGives sampleEnvironment "/cart.svg" "<svg></svg>").
  { eexists. split; reflexivity. }
  split; [exact Hfetch |]. split; [reflexivity |]. split; [reflexivity |].
  destruct (loadSVG_callback_throws sampleEnvironment "/cart.svg" "scene"
              (int 1) (int 2) (mkWorld hostPage []) "<svg></svg>"
              [0; 0]%nat [[0; 0; 0]%nat] (VStr "boom") Hfetch eq_refl eq_refl
              eq_refl) as [Hrun _].
  now rewrite Hrun.
Defined.

(** [loadSVG] changes the tree of nodes inside the container only: the
    container stays the element found under the ID, with its tag and its
    [id], and every node off the way to the container is as it was, whether
    the load succeeds or not.  What [gsap.set] had left on an element off
    that way stays as well, unless the selector of this load reaches that
    element too, as it does for an [svg] element below another element that
    shares the ID; then the element gets [x] and [y]. *)
Theorem loadSVG_changes_only_container
    (env : Environment) (url target : string) (x y : Value)
    (callback : option Callback) (w : World) (container p : Path)
    (Hcontainer : getElementById target (page w) = Some container)
    (Hoff : diverge p container) :
  nodeAt p (page (snd (loadSVG env url target x y callback w)))
  = nodeAt p (page w) /\
  getElementById target (page (snd (loadSVG env url target x y callback w)))
  = Some container /\
  (exists (tag id : string) (before after : list Node),
     nodeAt container (page w) = Some (Element tag id before) /\
     nodeAt container (page (snd (loadSVG env url target x y callback w)))
     = Some (Element tag id after)) /\
  (placedAt p (snd (loadSVG env url target x y callback w)) = placedAt p w \/
   exists elements : list Path,
     querySelectorAll env ("#" ++ target ++ " svg")
       (page (snd (loadSVG env url target x y callback w)))
     = Normal elements /\
     In p elements /\
     placedAt p (snd (loadSVG env url target x y callback w))
     = Some (VObj [ ("x", x); ("y", y) ])).
Proof.
  unfold getElementById in Hcontainer.
  destruct (DomFacts.find_nodeAt target container (page w) Hcontainer)
    as (t & a & ks & Hat & _).
  pose proof (LoaderMore.diverge_not_under p container Hoff) as Hunder.
  unfold loadSVG. cbn [snd].
  destruct (LoaderMore.run_cases env url target x y callback w)
    as [(error & _ & Hrun)
       | [(svg & c & e & _ & _ & _ & Hrun)
         | [(svg & c & e & _ & Hc & _ & _ & Hrun)
           | (svg & c & elements & _ & Hc & _ & Hs & Hrun)]]];
    rewrite Hrun; unfold placedAt; cbn [snd page placed].
  - split; [reflexivity |]. split; [exact Hcontainer |].
    split; [now exists t, a, ks, ks | now left].
  - split; [reflexivity |]. split; [exact Hcontainer |].
    split; [now exists t, a, ks, ks | now left].
  - unfold getElementById in Hc. rewrite Hcontainer in Hc.
    injection Hc as <-.
    split; [now apply LoaderMore.nodeAt_updateAt_diverge |].
    split; [now apply DomFacts.find_withChildren |].
    split.
    + exists t, a, ks, (parseFragment env svg).
      split; [exact Hat |].
      now rewrite (DomFacts.nodeAt_updateAt _ _ _ _ Hat).
    + left. now rewrite SelectFacts.lookupPlaced_filter, Hunder.
  - unfold getElementById in Hc. rewrite Hcontainer in Hc.
    injection Hc as <-.
    split; [now apply LoaderMore.nodeAt_updateAt_diverge |].
    split; [now apply DomFacts.find_withChildren |].
    split.
    + exists t, a, ks, (parseFragment env svg).
      split; [exact Hat |].
      now rewrite (DomFacts.nodeAt_updateAt _ _ _ _ Hat).
    + destruct (in_dec (list_eq_dec Nat.eq_dec) p elements) as [Hin | Hout].
      * right. exists elements. split; [exact Hs |]. split; [exact Hin |].
        now apply SelectFacts.lookupPlaced_hit.
      * left. rewrite SelectFacts.lookupPlaced_miss by exact Hout.
        now rewrite SelectFacts.lookupPlaced_filter, Hunder.
Qed.

Lemma loadSVG_changes_only_container_other :
  getElementById "scene" hostPage = Some [0; 0]%nat /\
  diverge [0; 1]%nat [0; 0]%nat /\
  nodeAt [0; 1]%nat
    (page (snd (loadSVG sampleEnvironment "/cart.svg" "scene" (int 0) (int 0)
                  None (mkWorld hostPage []))))
  = Some (Element "div" "other" []).
Proof.
  assert (Hoff : diverge [0; 1]%nat [0; 0]%nat).
  { exists [0%nat], 1%nat, 0%nat, [], []. repeat split. lia. }
  split; [reflexivity |]. split; [exact Hoff |].
  destruct (loadSVG_changes_only_container sampleEnvironment "/cart.svg"
              "scene" (int 0) (int 0) None (mkWorld hostPage [])
              [0; 0]%nat [0; 1]%nat eq_refl Hoff) as [Hsame _].
  now rewrite Hsame.
Defined.

(** Two loads into the same container that overlap: both requests leave
    before either response is there.  Whichever chain runs last wins: the
    page is then the one that load alone would have left, and the container
    holds its markup, whatever the selector and the callbacks do.  A load
    whose chain runs right after its request is the load taken in one
    step. *)
Theorem loadSVG_last_load_wins
    (env : Environment) (url1 url2 target : string) (x1 y1 x2 y2 : Value)
    (callback1 callback2 : option Callback) (w : World)
    (svg1 svg2 : string) (container : Path)
    (Hfirst : fetchGives env url1 svg1)
    (Hsecond : fetchGives env url2 svg2)
    (Hcontainer : getElementById target (page w) = Some container)
    (Haccepted1 : markupError env svg1 = None)
    (Haccepted2 : markupError env svg2 = None) :
  exists (called w1 w12 w2 w21 alone : World) (rest12 rest21 : list Event),
    (request url1 ;;; request url2) w = (Normal VUndefined, called) /\
    settle env url1 target x1 y1 callback1 called = (Fulfilled VUndefined, w1) /\
    settle env url2 target x2 y2 callback2 w1 = (Fulfilled VUndefined, w12) /\
    settle env url2 target x2 y2 callback2 called = (Fulfilled VUndefined, w2) /\
    settle env url1 target x1 y1 callback1 w2 = (Fulfilled VUndefined, w21) /\
    trace w12
    = (trace w ++ FetchRequested url1 :: FetchRequested url2 :: rest12)%list /\
    trace w21
    = (trace w ++ FetchRequested url1 :: FetchRequested url2 :: rest21)%list /\
    page w12
    = updateAt container (withChildren (parseFragment env svg2)) (page w) /\
    page w21
    = updateAt container (withChildren (parseFragment env svg1)) (page w) /\
    loadSVG env url2 target x2 y2 callback2 w = (Normal VUndefined, alone) /\
    page alone = page w12 /\
    settle env url2 target x2 y2 callback2 (snd (request url2 w))
    = loadSVG_promise env url2 target x2 y2 callback2 w.
Proof.
  destruct Hfirst as (r1 & Hf1 & Ht1). destruct Hsecond as (r2 & Hf2 & Ht2).
  set (called := Build_World (page w)
                   (trace w ++ [FetchRequested url1; FetchRequested url2])%list
                   (placed w)).
  assert (Hcalled : (request url1 ;;; request url2) w
                    = (Normal VUndefined, called)).
  { unfold request, bind, emit, called. cbn [page trace placed].
    now rewrite <- app_assoc. }
  unfold getElementById in Hcontainer.
  assert (Hstep : forall (url : string) (r : Response) (svg : string)
                         (x y : Value) (cb : option Callback) (w0 : World),
            fetch env url = Fulfilled r ->
            text r = Fulfilled svg ->
            markupError env svg = None ->
            getElementById target (page w0) = Some container ->
            exists (w' : World) (rest : list Event),
              settle env url target x y cb w0 = (Fulfilled VUndefined, w') /\
              page w'
              = updateAt container (withChildren (parseFragment env svg))
                  (page w0) /\
              trace w' = (trace w0 ++ rest)%list /\
              getElementById target (page w') = Some container).
  { intros url r svg x y cb w0 Hf Ht Hm Hc.
    assert (Hp : (fun w : World => (fetch env url, w)) w0 = (Fulfilled r, w0))
      by (cbv beta; now rewrite Hf).
    destruct (LoaderMore.reactions_inserted env target x y cb _ w0 w0 r svg
                container Hp Ht Hc Hm) as (w' & rest & Hrun & Hpage & Htrace).
    exists w', rest. split; [exact Hrun |]. split; [exact Hpage |].
    split; [exact Htrace |].
    rewrite Hpage. now apply DomFacts.find_withChildren. }
  destruct (Hstep url1 r1 svg1 x1 y1 callback1 called Hf1 Ht1 Haccepted1
              Hcontainer) as (w1 & rest1 & Hrun1 & Hpage1 & Htrace1 & Hc1).
  destruct (Hstep url2 r2 svg2 x2 y2 callback2 w1 Hf2 Ht2 Haccepted2 Hc1)
    as (w12 & rest12 & Hrun12 & Hpage12 & Htrace12 & _).
  destruct (Hstep url2 r2 svg2 x2 y2 callback2 called Hf2 Ht2 Haccepted2
              Hcontainer) as (w2 & rest2 & Hrun2 & Hpage2 & Htrace2 & Hc2).
  destruct (Hstep url1 r1 svg1 x1 y1 callback1 w2 Hf1 Ht1 Haccepted1 Hc2)
    as (w21 & rest21 & Hrun21 & Hpage21 & Htrace21 & _).
  assert (Hp : fetch_ env url2 w
               = (Fulfilled r2,
                  Build_World (page w) (trace w ++ [FetchRequested url2])%list
                    (placed w)))
    by (rewrite LoaderFacts.fetch_step; now rewrite Hf2).
  destruct (LoaderMore.reactions_inserted env target x2 y2 callback2 _ w _
              r2 svg2 container Hp Ht2 Hcontainer Haccepted2)
    as (alone & rest & Halone & Hpagealone & _).
  exists called, w1, w12, w2, w21, alone, (rest1 ++ rest12)%list,
    (rest2 ++ rest21)%list.
  split; [exact Hcalled |]. split; [exact Hrun1 |]. split; [exact Hrun12 |].
  split; [exact Hrun2 |]. split; [exact Hrun21 |].
  split.
  { rewrite Htrace12, Htrace1. unfold called. cbn [trace].
    now rewrite <- !app_assoc. }
  split.
  { rewrite Htrace21, Htrace2. unfold called. cbn [trace].
    now rewrite <- !app_assoc. }
  split.
  { rewrite Hpage12, Hpage1. unfold called. cbn [page].
    apply LoaderMore.updateAt_withChildren_twice. }
  split.
  { rewrite Hpage21, Hpage2. unfold called. cbn [page].
    apply LoaderMore.updateAt_withChildren_twice. }
  split.
  { unfold loadSVG, loadSVG_promise. now rewrite Halone. }
  split; [| reflexivity].
  rewrite Hpagealone, Hpage12, Hpage1. unfold called. cbn [page].
  symmetry. apply LoaderMore.updateAt_withChildren_twice.
Qed.

Lemma loadSVG_last_load_wins_gone :
  fetchGives sampleEnvironment "/cart.svg" "<svg></svg>" /\
  fetchGives sampleEnvironment "/gone.svg" "<h1>Not Found</h1>" /\
  getElementById "scene" hostPage = Some [0; 0]%nat /\
  markupError sampleEnvironment "<svg></svg>" = None /\
  markupError sampleEnvironment "<h1>Not Found</h1>" = None /\
  exists called w1 w12 : World,
    (request "/cart.svg" ;;; request "/gone.svg") (mkWorld hostPage [])
    = (Normal VUndefined, called) /\
    settle sampleEnvironment "/cart.svg" "scene" (int 0) (int 0) None called
    = (Fulfilled VUndefined, w1) /\
    settle sampleEnvironment "/gone.svg" "scene" (int 0) (int 0) None w1
    = (Fulfilled VUndefined, w12) /\
    nodeAt [0; 0]%nat (page w12)
    = Some (Element "div" "scene" [ Text "<h1>Not Found</h1>" ]) /\
    trace w12
    = [ FetchRequested "/cart.svg"; FetchRequested "/gone.svg";
        GsapSet (VStr "#scene svg") (VObj [ ("x", int 0); ("y", int 0) ]);
        GsapSet (VStr "#scene svg") (VObj [ ("x", int 0); ("y", int 0) ]) ].
Proof.
  assert (H1 : fetchGives sampleEnvironment "/cart.svg" "<svg></svg>").
  { eexists. split; reflexivity. }
  assert (H2 : fetchGives sampleEnvironment "/gone.svg" "<h1>Not Found</h1>").
  { eexists. split; reflexivity. }
  split; [exact H1 |]. split; [exact H2 |]. split; [reflexivity |].
  split; [reflexivity |]. split; [reflexivity |].
  destruct (loadSVG_last_load_wins sampleEnvironment "/cart.svg" "/gone.svg"
              "scene" (int 0) (int 0) (int 0) (int 0) None None
              (mkWorld hostPage []) "<svg></svg>" "<h1>Not Found</h1>"
              [0; 0]%nat H1 H2 eq_refl eq_refl eq_refl)
    as (called & w1 & w12 & w2 & w21 & alone & rest12 & rest21
        & Hcalled & Hrun1 & Hrun12 & _).
  exists called, w1, w12.
  split; [exact Hcalled |]. split; [exact Hrun1 |]. split; [exact Hrun12 |].
  injection Hcalled as <-. injection Hrun1 as <-. injection Hrun12 as <-.
  split; reflexivity.
Defined.

(** ** More on [bringToFront] *)

(** [bringToFront] throws the [TypeError] exactly when no element carries
    the ID, which is always so for the empty ID; it throws the
    [HierarchyRequestError] exactly when the element found is the root; and
    whenever it throws, the page is left as it was. *)
Theorem bringToFront_errors (doc : Document) (elementId : string) :
  (bringToFront elementId doc
   = (Throw (VError "TypeError"
               "Cannot read properties of null (reading 'parentNode')"),
      doc)
   <-> ~ In elementId (ids doc)) /\
  (bringToFront elementId doc
   = (Throw (VError "HierarchyRequestError"
               "Only one element on document allowed."),
      doc)
   <-> getElementById elementId doc = Some []) /\
  (forall (e : Value) (doc' : Document),
     bringToFront elementId doc = (Throw e, doc') -> doc' = doc) /\
  bringToFront "" doc
  = (Throw (VError "TypeError"
              "Cannot read properties of null (reading 'parentNode')"),
     doc).
Proof.
  assert (Hempty : getElementById "" doc = None).
  { apply FrontFacts.find_none_iff. intros H.
    now apply FrontFacts.ids_not_empty in H. }
  split; [| split; [| split]].
  - rewrite <- FrontFacts.find_none_iff. fold (getElementById elementId doc).
    destruct (FrontFacts.bringToFront_cases elementId doc)
      as [[Hnone Hrun] | [[Hroot Hrun] | (q & i & Hfound & Hrun)]];
      rewrite Hrun; split; intros H; try discriminate H; try reflexivity;
      try assumption; congruence.
  - destruct (FrontFacts.bringToFront_cases elementId doc)
      as [[Hnone Hrun] | [[Hroot Hrun] | (q & i & Hfound & Hrun)]];
      rewrite Hrun; split; intros H; try discriminate H; try reflexivity;
      try assumption; try congruence.
    rewrite Hfound in H. injection H as H. now destruct q.
  - intros e doc'.
    destruct (FrontFacts.bringToFront_cases elementId doc)
      as [[Hnone Hrun] | [[Hroot Hrun] | (q & i & Hfound & Hrun)]];
      rewrite Hrun; intros H; try discriminate H; now injection H.
  - unfold bringToFront. now rewrite Hempty.
Qed.

(** [bringToFront] neither adds nor drops nor renames an element: the IDs of
    the page after the call are those before it, rearranged; so a page with
    distinct IDs keeps distinct IDs. *)
Theorem bringToFront_keeps_ids (doc : Document) (elementId : string) :
  Permutation (ids (snd (bringToFront elementId doc))) (ids doc) /\
  (NoDup (ids doc) -> NoDup (ids (snd (bringToFront elementId doc)))).
Proof.
  assert (H : Permutation (ids (snd (bringToFront elementId doc))) (ids doc)).
  { destruct (FrontFacts.bringToFront_cases elementId doc)
      as [[_ Hrun] | [[_ Hrun] | (q & i & _ & Hrun)]];
      rewrite Hrun; cbn [snd]; [reflexivity | reflexivity |].
    apply FrontFacts.ids_reappend. }
  split; [exact H |].
  intros Hnd. apply Permutation_NoDup with (ids doc); [| exact Hnd].
  now symmetry.
Qed.

(** When the element found is already the last child of its parent,
    [bringToFront] returns normally and the page is as it was, shared IDs or
    not. *)
Theorem bringToFront_already_last
    (doc : Document) (elementId : string) (element parent : Path)
    (index : nat) (parentNode_ : Node)
    (Hfound : getElementById elementId doc = Some element)
    (Hparent : parentNode element = ElementNode parent index)
    (Hnode : nodeAt parent doc = Some parentNode_)
    (Hlast : S index = List.length (childNodes parentNode_)) :
  bringToFront elementId doc = (Normal VUndefined, doc).
Proof.
  apply DomFacts.parentNode_inv in Hparent. subst element.
  unfold bringToFront. rewrite Hfound, DomFacts.parentNode_snoc.
  unfold bind, appendChild, ret.
  rewrite (FrontFacts.updateAt_fixed _ _ _ _ Hnode
             (FrontFacts.reappend_last _ _ Hlast)).
  reflexivity.
Qed.

Lemma bringToFront_already_last_path1 :
  getElementById "path1" roadPage = Some [0; 1]%nat /\
  parentNode [0; 1]%nat = ElementNode [0%nat] 1%nat /\
  nodeAt [0%nat] roadPage
  = Some (Element "g" "road"
            [ Element "rect" "cart" []; Element "path" "path1" [] ]) /\
  bringToFront "path1" roadPage = (Normal VUndefined, roadPage).
Proof.
  split; [reflexivity |]. split; [reflexivity |]. split; [reflexivity |].
  apply (bringToFront_already_last roadPage "path1" [0; 1]%nat [0%nat] 1%nat
           (Element "g" "road"
              [ Element "rect" "cart" []; Element "path" "path1" [] ]));
    reflexivity.
Defined.

(** Shared IDs or not, a call of [bringToFront] on the ID of an element
    whose parent is an element returns normally and moves the element found,
    the first one in tree order, behind its siblings: the siblings keep
    their order, the element is the last child, and every node off the way
    to the parent is as it was. *)
Theorem bringToFront_moves_to_end
    (doc : Document) (elementId : string) (element parent : Path) (index : nat)
    (Hfound : getElementById elementId doc = Some element)
    (Hparent : parentNode element = ElementNode parent index) :
  exists (node : Node) (doc' : Document) (tag id : string)
         (before after : list Node),
    nodeAt element doc = Some node /\
    nodeAt parent doc = Some (Element tag id (before ++ node :: after)%list) /\
    index = List.length before /\
    bringToFront elementId doc = (Normal VUndefined, doc') /\
    nodeAt parent doc' = Some (Element tag id ((before ++ after) ++ [node])%list) /\
    lastChild parent doc' = Some node /\
    forall p : Path, diverge p parent -> nodeAt p doc' = nodeAt p doc.
Proof.
  apply DomFacts.parentNode_inv in Hparent. subst element.
  unfold getElementById in Hfound.
  destruct (DomFacts.find_nodeAt elementId _ doc Hfound)
    as (t & a & ks & Hat & _).
  pose proof Hat as Hsplit. rewrite DomFacts.nodeAt_snoc in Hsplit.
  destruct (nodeAt parent doc) as [m|] eqn:Hm; [| discriminate].
  destruct m as [pt pa pks|s]; simpl in Hsplit; [| now destruct index].
  apply nth_error_split in Hsplit as (pre & post & -> & <-).
  exists (Element t a ks), (updateAt parent (reappend (List.length pre)) doc),
    pt, pa, pre, post.
  assert (Hat' : nodeAt parent (updateAt parent (reappend (List.length pre)) doc)
                 = Some (Element pt pa ((pre ++ post) ++ [Element t a ks])%list)).
  { rewrite (DomFacts.nodeAt_updateAt _ _ _ _ Hm).
    unfold reappend. simpl. now rewrite DomFacts.moveLast_middle. }
  split; [exact Hat |]. split; [reflexivity |]. split; [reflexivity |].
  split.
  { unfold bringToFront, getElementById. rewrite Hfound.
    now rewrite DomFacts.parentNode_snoc. }
  split; [exact Hat' |]. split.
  - unfold lastChild. rewrite Hat'. simpl.
    rewrite map_app. simpl. apply last_last.
  - intros p Hp. now apply LoaderMore.nodeAt_updateAt_diverge.
Qed.

Lemma bringToFront_moves_to_end_twins :
  getElementById "dot" twinsPage = Some [0%nat] /\
  parentNode [0%nat] = ElementNode [] 0%nat /\
  exists doc' : Document,
    bringToFront "dot" twinsPage = (Normal VUndefined, doc') /\
    lastChild [] doc' = Some (Element "circle" "dot" []).
Proof.
  split; [reflexivity |]. split; [reflexivity |].
  destruct (bringToFront_moves_to_end twinsPage "dot" [0%nat] [] 0%nat
              eq_refl eq_refl)
    as (node & doc' & tag & id & before & after
        & Hnode & _ & _ & Hrun & _ & Hlast & _).
  exists doc'. split; [exact Hrun |].
  injection Hnode as <-. exact Hlast.
Defined.

